(** * LibreChat maintenance scripts and code-artifact rendering

    A shallow embedding of the pieces of the repository:

    - [client/src/components/Artifacts/Code.tsx]: the [code] component, its
      content flattener [processContent] and the displayed file name;
    - [MonacoEditor.tsx]: the presentation widget and its language selector;
    - [api/archiveAllUserChats-30days.js]: the archival script;
    - the export script ([exportUserConversations], [exportAllUsers]).

    The first part holds the definitions, translated from the sources; the
    second part, the properties proved of them.

    JavaScript strings are modelled as [string] (a sequence of bytes, so a
    character outside ASCII is a run of bytes >= 128, none of which is a word
    character, as in the regular expressions of the source, which carry no
    unicode flag). *)

From Stdlib Require Import String Ascii List ZArith Bool Lia.
From stdpp Require Import base option list strings gmap fin_maps.
Import ListNotations.

Local Open Scope string_scope.
Local Open Scope list_scope.

(** ** JavaScript completions *)

(** What a JavaScript exception carries is only ever printed by the scripts;
    the kind of the error is all the control flow depends on. *)
Inductive js_error : Type :=
| TypeError
| DbError
| FsError.

(** The result of evaluating an expression: a value, or a thrown error. *)
Inductive completion (A : Type) : Type :=
| Normal (a : A)
| Throws (e : js_error).
Arguments Normal {A} a.
Arguments Throws {A} e.

Definition cbind {A B} (c : completion A) (k : A -> completion B) : completion B :=
  match c with
  | Normal a => k a
  | Throws e => Throws e
  end.

(** ** Association lists for object literals *)

Section Props.
Variable V : Type.

(** [key in obj], for own string-keyed data properties in insertion order. *)
Fixpoint has_key (k : string) (o : list (string * V)) : bool :=
  match o with
  | [] => false
  | (k', _) :: o' => if String.eqb k k' then true else has_key k o'
  end.

(** [obj[key]] when the key is present. *)
Fixpoint get_key (k : string) (o : list (string * V)) : option V :=
  match o with
  | [] => None
  | (k', v) :: o' => if String.eqb k k' then Some v else get_key k o'
  end.

(** [key in obj ? some(obj[key]) : none], in one pass. The flattener below
    recurses through it, which the separate test and read of the source do
    not allow the termination check to see. *)
Definition with_key {A : Type} (k : string) (some : V -> A) (none : A)
  : list (string * V) -> A :=
  fix look (o : list (string * V)) : A :=
    match o with
    | [] => none
    | (k', v) :: o' => if String.eqb k k' then some v else look o'
    end.

End Props.
Arguments has_key {V} k o.
Arguments get_key {V} k o.
Arguments with_key {V A} k some none o.

(** ** The code-artifact renderer (Code.tsx, MonacoEditor.tsx) *)

Module Render.

(** The values [processContent] can be handed: what react-markdown and the
    rehype plugins put under [children]. A number is kept as the text
    [Number.prototype.toString] gives for it, which is all the flattener
    ever asks of a number. [VElem props] is a valid React element
    ([React.isValidElement] holds of it) with the given [props] object; its
    own keys are those React gives every element, so it has a [props] key
    and neither [value], [raw] nor [children]. [VObj fields] is any other
    non-array object, with its own enumerable data properties. *)
#[local] Unset Elimination Schemes.
Inductive value : Type :=
| VUndefined
| VNull
| VBool (b : bool)
| VNum (shown : string)
| VStr (s : string)
| VArr (items : list value)
| VElem (props : list (string * value))
| VObj (fields : list (string * value)).
#[local] Set Elimination Schemes.

(** [Array.prototype.join]. *)
Fixpoint join (sep : string) (parts : list string) : string :=
  match parts with
  | [] => ""
  | [p] => p
  | p :: rest => p +:+ sep +:+ join sep rest
  end.

(** Collects the results of [xs.map(f)], the first exception winning. *)
Fixpoint collect (rs : list (completion string)) : completion (list string) :=
  match rs with
  | [] => Normal []
  | r :: rs' => cbind r (fun s => cbind (collect rs') (fun ss => Normal (s :: ss)))
  end.

(** [String(v)]. An array prints its elements separated by commas, with
    [undefined] and [null] elements printed as nothing. An object without a
    [toString] of its own inherits [Object.prototype.toString]; one whose
    own [toString] property holds data (this model has no function values)
    has no callable conversion left that yields a primitive, and
    [String] throws a [TypeError]. *)
Fixpoint String_ (v : value) : completion string :=
  match v with
  | VUndefined => Normal "undefined"
  | VNull => Normal "null"
  | VBool true => Normal "true"
  | VBool false => Normal "false"
  | VNum shown => Normal shown
  | VStr s => Normal s
  | VArr items =>
      cbind (collect (map (fun x => match x with
                                    | VUndefined | VNull => Normal ""
                                    | _ => String_ x
                                    end) items))
            (fun parts => Normal (join "," parts))
  | VElem _ => Normal "[object Object]"
  | VObj fields =>
      if has_key "toString" fields then Throws TypeError
      else Normal "[object Object]"
  end.

(** ['children' in p], for [p] the value of a [props] property: the [in]
    operator throws a [TypeError] when its right operand is not an
    object. *)
Definition children_in (p : value) : completion bool :=
  match p with
  | VObj ps => Normal (has_key "children" ps)
  | VArr _ | VElem _ => Normal false
  | VUndefined | VNull | VBool _ | VNum _ | VStr _ => Throws TypeError
  end.

(** [processContent] of Code.tsx. *)
Fixpoint processContent (children : value) : completion string :=
  match children with
  | VArr items =>
      (* children.map(child => processContent(child)).join('') *)
      cbind (collect (map processContent items))
            (fun parts => Normal (join "" parts))
  | VElem props =>
      (* React.isValidElement: processContent(children.props.children) *)
      with_key "children" processContent (Normal "") props
  | VObj fields =>
      let fallback := String_ (VObj fields) in
      with_key "value" String_
        (with_key "raw" String_
           (with_key "props"
              (fun p =>
                 match p with
                 | VObj ps => with_key "children" processContent fallback ps
                 | VArr _ | VElem _ => fallback
                 | VUndefined | VNull | VBool _ | VNum _ | VStr _ =>
                     Throws TypeError
                 end)
              fallback fields)
           fields)
        fields
  | VUndefined | VNull => Normal ""           (* String(children ?? '') *)
  | VBool _ | VNum _ | VStr _ => String_ children
  end.

(** The flattener as the specification words it, to be compared with
    [processContent]: sequences are concatenated in order; a node exposing
    a [value] field yields that value's string form; a node exposing a
    [raw] field yields that field's string form; a node exposing children
    under [props.children] is unwrapped recursively; anything else is
    converted to its default string form, an absent value to the empty
    string. *)
Fixpoint flatten_as_specified (node : value) : completion string :=
  match node with
  | VArr items =>
      cbind (collect (map flatten_as_specified items))
            (fun parts => Normal (join "" parts))
  | VElem props =>
      with_key "children" flatten_as_specified (String_ (VElem props)) props
  | VObj fields =>
      let fallback := String_ (VObj fields) in
      with_key "value" String_
        (with_key "raw" String_
           (with_key "props"
              (fun p =>
                 match p with
                 | VObj ps => with_key "children" flatten_as_specified fallback ps
                 | _ => fallback
                 end)
              fallback fields)
           fields)
        fields
  | VUndefined | VNull => Normal ""
  | VBool _ | VNum _ | VStr _ => String_ node
  end.

(** The nodes on which the flattener meets, on its way, no React element
    without children and no [props] field holding a primitive. *)
Fixpoint regular (node : value) : bool :=
  match node with
  | VArr items => forallb regular items
  | VElem props => with_key "children" regular false props
  | VObj fields =>
      with_key "value" (fun _ => true)
        (with_key "raw" (fun _ => true)
           (with_key "props"
              (fun p =>
                 match p with
                 | VObj ps => with_key "children" regular true ps
                 | VArr _ | VElem _ => true
                 | VUndefined | VNull | VBool _ | VNum _ | VStr _ => false
                 end)
              true fields)
           fields)
        fields
  | VUndefined | VNull | VBool _ | VNum _ | VStr _ => true
  end.

(** A node carrying nothing but a raw-text field. *)
Definition raw_node (text : string) : value := VObj [("raw", VStr text)].

(** *** The [code] component *)

(** [\w] of a regular expression without the unicode flag. *)
Definition is_word_char (c : ascii) : bool :=
  let n := nat_of_ascii c in
  (Nat.leb 48 n && Nat.leb n 57) || (Nat.leb 65 n && Nat.leb n 90)
  || (Nat.leb 97 n && Nat.leb n 122) || Nat.eqb n 95.

(** The longest run of word characters at the head of [s]: what a greedy
    [\w*] consumes. *)
Fixpoint take_word (s : string) : string :=
  match s with
  | String c s' => if is_word_char c then String c (take_word s') else ""
  | EmptyString => ""
  end.

(** [s] without the prefix [p], when it starts with [p]. *)
Fixpoint strip_prefix (p s : string) : option string :=
  match p, s with
  | EmptyString, _ => Some s
  | String a p', String b s' => if Ascii.eqb a b then strip_prefix p' s' else None
  | String _ _, EmptyString => None
  end.

(** [/language-(\w+)/] tried at the head of [s]: the capture group. *)
Definition language_here (s : string) : option string :=
  match strip_prefix "language-" s with
  | Some rest =>
      match take_word rest with
      | EmptyString => None
      | w => Some w
      end
  | None => None
  end.

(** [/language-(\w+)/.exec(s)?.[1]]: the leftmost match wins. *)
Fixpoint language_match (s : string) : option string :=
  match language_here s with
  | Some w => Some w
  | None =>
      match s with
      | String _ s' => language_match s'
      | EmptyString => None
      end
  end.

(** [const lang = match?.[1] ?? undefined], with
    [match = /language-(\w+)/.exec(className ?? '')]. *)
Definition lang_of (className : option string) : option string :=
  language_match (default "" className).

(** Truthiness of an optional string: [undefined] and [''] are falsy. *)
Definition truthy (s : option string) : bool :=
  match s with
  | Some (String _ _) => true
  | Some EmptyString | None => false
  end.

(** [const displayFilename = filename || `untitled${lang ? `.${lang}` : ''}`] *)
Definition displayFilename (filename lang : option string) : string :=
  if truthy filename then default "" filename
  else "untitled" +:+ (if truthy lang then "." +:+ default "" lang else "").

Record MonacoEditorProps : Type := {
  content : string;
  language : option string;
  readOnly : option bool;
  className : option string;
  filename : option string
}.

(** What the [code] component renders: the inline [<code>] element with its
    children untouched, or the editor with the props built for it. *)
Inductive rendered : Type :=
| InlineCode (cls : option string) (children : value)
| Editor (props : MonacoEditorProps).

Definition code (inline : bool) (cls : option string) (children : value)
           (fname : option string) : completion rendered :=
  let lang := lang_of cls in
  if inline then Normal (InlineCode cls children)
  else
    cbind (processContent children) (fun text =>
      Normal (Editor {| content := text;
                        language := lang;
                        readOnly := Some true;
                        className := Some "!bg-gray-900";
                        filename := Some (displayFilename fname lang) |})).

(** *** The [MonacoEditor] widget *)

(** The text model the editor library keeps for the widget. *)
Record text_model : Type := {
  model_language : string;
  model_value : string
}.

(** The widget: its props after defaults, its React state
    ([height], [currentLanguage], [showLanguages]) and what [editorRef]
    and [monacoRef] give access to: [None] before the editor is mounted,
    [Some None] for a mounted editor whose [getModel()] is [null]. *)
Record widget : Type := {
  w_content : string;
  w_readOnly : bool;
  w_filename : string;
  w_height : Z;
  currentLanguage : string;
  showLanguages : bool;
  w_editor : option (option text_model)
}.

(** Props destructuring with its defaults and the initial [useState]s. *)
Definition MonacoEditor (props : MonacoEditorProps) : widget :=
  let lang := default "plaintext" (language props) in
  {| w_content := content props;
     w_readOnly := default true (readOnly props);
     w_filename := default "untitled" (filename props);
     w_height := 200;
     currentLanguage := lang;
     showLanguages := false;
     w_editor := None |}.

(** [content.split('\n').length] *)
Fixpoint line_count (s : string) : Z :=
  match s with
  | EmptyString => 1
  | String c s' => (if Ascii.eqb c "010"%char then 1 else 0) + line_count s'
  end.

(** [updateHeight], run by the effect and on every window resize. *)
Definition updateHeight (w : widget) : widget :=
  {| w_content := w_content w;
     w_readOnly := w_readOnly w;
     w_filename := w_filename w;
     w_height := Z.min (Z.max (line_count (w_content w) * 20 + 50) 200) 600;
     currentLanguage := currentLanguage w;
     showLanguages := showLanguages w;
     w_editor := w_editor w |}.

(** [handleEditorDidMount]: the refs are set. The editor library has built
    the model from the [defaultValue] and [defaultLanguage] props. *)
Definition handleEditorDidMount (w : widget) : widget :=
  {| w_content := w_content w;
     w_readOnly := w_readOnly w;
     w_filename := w_filename w;
     w_height := w_height w;
     currentLanguage := currentLanguage w;
     showLanguages := showLanguages w;
     w_editor := Some (Some {| model_language := currentLanguage w;
                               model_value := w_content w |}) |}.

(** The status-bar button: [setShowLanguages(!showLanguages)]. *)
Definition toggleLanguages (w : widget) : widget :=
  {| w_content := w_content w;
     w_readOnly := w_readOnly w;
     w_filename := w_filename w;
     w_height := w_height w;
     currentLanguage := currentLanguage w;
     showLanguages := negb (showLanguages w);
     w_editor := w_editor w |}.

(** [monaco.editor.setModelLanguage(model, lang)] *)
Definition setModelLanguage (m : text_model) (lang : string) : text_model :=
  {| model_language := lang; model_value := model_value m |}.

(** [handleLanguageChange] *)
Definition handleLanguageChange (lang : string) (w : widget) : widget :=
  {| w_content := w_content w;
     w_readOnly := w_readOnly w;
     w_filename := w_filename w;
     w_height := w_height w;
     currentLanguage := lang;              (* setCurrentLanguage(lang) *)
     showLanguages := false;               (* setShowLanguages(false) *)
     w_editor :=
       match w_editor w with
       | Some (Some model) => Some (Some (setModelLanguage model lang))
       | other => other
       end |}.

(** The languages offered by the dropdown. *)
Definition languages : list string :=
  [ "javascript"; "typescript"; "python"; "java"; "c"; "cpp"; "csharp";
    "go"; "rust"; "php"; "ruby"; "swift"; "kotlin"; "scala"; "html";
    "css"; "json"; "xml"; "yaml"; "markdown"; "sql"; "shell"; "plaintext" ].

(** The text the editor shows: that of its model once it has one. *)
Definition shown_text (w : widget) : option string :=
  match w_editor w with
  | Some (Some model) => Some (model_value model)
  | _ => None
  end.

(** The highlighting mode of the editor's model. *)
Definition shown_mode (w : widget) : option string :=
  match w_editor w with
  | Some (Some model) => Some (model_language model)
  | _ => None
  end.

(** Two widget states that differ at most in the language label and in the
    highlighting mode of the editor's model. *)
Definition same_but_language (w w' : widget) : Prop :=
  w_content w' = w_content w
  /\ w_readOnly w' = w_readOnly w
  /\ w_filename w' = w_filename w
  /\ w_height w' = w_height w
  /\ showLanguages w' = showLanguages w
  /\ shown_text w' = shown_text w.

(** The same, the dropdown being left out as well. *)
Definition same_but_language_and_menu (w w' : widget) : Prop :=
  w_content w' = w_content w
  /\ w_readOnly w' = w_readOnly w
  /\ w_filename w' = w_filename w
  /\ w_height w' = w_height w
  /\ shown_text w' = shown_text w.

(** A run of selections in the dropdown, in order. *)
Definition select_all (langs : list string) (w : widget) : widget :=
  fold_left (fun w lang => handleLanguageChange lang w) langs w.

End Render.

(** ** Scripts: state, console and I/O trace, exceptions and process exit *)

Module Script.

(** How a piece of a script ends: it returns, it throws, or it has called
    [process.exit], after which nothing more of the program runs (no
    [catch], no [finally]). *)
Inductive outcome (A : Type) : Type :=
| Returned (a : A)
| Thrown (e : js_error)
| Exited (code : Z).
Arguments Returned {A} a.
Arguments Thrown {A} e.
Arguments Exited {A} code.

Section Monad.
Context {S E : Type}.

Record result (A : Type) : Type := Result {
  trace : list E;
  state : S;
  ending : outcome A
}.
Arguments Result {A} trace state ending.
Arguments trace {A} r.
Arguments state {A} r.
Arguments ending {A} r.

Definition M (A : Type) : Type := S -> result A.

Definition ret {A} (a : A) : M A := fun s => Result [] s (Returned a).

Definition bind {A B} (m : M A) (k : A -> M B) : M B :=
  fun s =>
    let r := m s in
    match ending r with
    | Returned a =>
        let r' := k a (state r) in
        Result (trace r ++ trace r') (state r') (ending r')
    | Thrown e => Result (trace r) (state r) (Thrown e)
    | Exited c => Result (trace r) (state r) (Exited c)
    end.

Definition emit (e : E) : M unit := fun s => Result [e] s (Returned tt).
Definition throw {A} (e : js_error) : M A := fun s => Result [] s (Thrown e).
Definition exit {A} (code : Z) : M A := fun s => Result [] s (Exited code).
Definition get : M S := fun s => Result [] s (Returned s).
Definition put (s : S) : M unit := fun _ => Result [] s (Returned tt).

(** [try { body } catch (error) { handler }] *)
Definition try_catch {A} (body : M A) (handler : js_error -> M A) : M A :=
  fun s =>
    let r := body s in
    match ending r with
    | Thrown e =>
        let r' := handler e (state r) in
        Result (trace r ++ trace r') (state r') (ending r')
    | _ => r
    end.

(** [try { body } finally { cleanup }]: the cleanup runs when the body
    returns and when it throws, and the body's ending stands unless the
    cleanup itself throws or exits. *)
Definition try_finally {A} (body : M A) (cleanup : M unit) : M A :=
  fun s =>
    let r := body s in
    match ending r with
    | Exited c => r
    | _ =>
        let r' := cleanup (state r) in
        Result (trace r ++ trace r') (state r')
               match ending r' with
               | Returned _ => ending r
               | Thrown e => Thrown e
               | Exited c => Exited c
               end
    end.

(** [for (const x of xs) { body }], with [continue] a return of the
    body. *)
Fixpoint for_of {A} (xs : list A) (body : A -> M unit) : M unit :=
  match xs with
  | [] => ret tt
  | x :: xs' => bind (body x) (fun _ => for_of xs' body)
  end.

(** [if (c) { m }] *)
Definition when (c : bool) (m : M unit) : M unit :=
  if c then m else ret tt.

(** A result with more events before it. *)
Definition prepend {A} (t : list E) (r : result A) : result A :=
  Result (t ++ trace r) (state r) (ending r).

(** A computation that, from any state, relates the state it starts from
    to the one it ends in by [R] and emits only events in [P]. *)
Definition keeps (R : S -> S -> Prop) (P : E -> Prop) {A} (m : M A) : Prop :=
  forall s, R s (state (m s)) /\ Forall P (trace (m s)).

End Monad.

Arguments result : clear implicits.
Arguments M : clear implicits.
Arguments Result {S E A} trace state ending.
Arguments trace {S E A} r.
Arguments state {S E A} r.
Arguments ending {S E A} r.
Arguments prepend {S E A} t r.
Arguments keeps {S E} R P {A} m.

Declare Scope script_scope.
Delimit Scope script_scope with script.
Notation "'let!' x ':=' m 'in' k" := (bind m (fun x => k))
  (at level 10, x name, m at level 100, k at level 200) : script_scope.
Notation "m '>>' k" := (bind m (fun _ => k))
  (at level 90, right associativity) : script_scope.

End Script.

(** ** The archival script (api/archiveAllUserChats-30days.js) *)

Module Archive.
Import Script.
Local Open Scope script_scope.

(** A user document, as [findOne(...).lean()] returns it. *)
Record user_doc : Type := {
  _id : string;
  username : string
}.

(** A conversation document; its [_id] is the key it is stored under.
    [updatedAt] is in milliseconds since the epoch and, like [isArchived],
    may be missing from a document. *)
Record conversation : Type := {
  user : string;
  updatedAt : option Z;
  isArchived : option bool
}.

(** The calls the script makes on the database. *)
Inductive db_call : Type :=
| Connect
| FindUser (name : string)
| FindConversations (userId : string) (before : Z)
| UpdateMany (ids : list string)
| Disconnect.

(** What the script prints, one constructor per message of the source. *)
Inductive message : Type :=
| ConnectedToMongoDB
| PleaseProvideUsername
| InvalidUsernameFormat
| UserNotFound (name : string)
| ProcessingConversations (name userId : string)
| NoConversationsToArchive (name : string)
| DryRunWouldArchive (count : nat) (name : string)
| Archiving (count : nat) (name : string)
| Archived (count : nat) (name : string)
| ArchivingCompleted
| ErrorArchiving (e : js_error)
| DisconnectedFromMongoDB.

Inductive event : Type :=
| Db (c : db_call)
| ConsoleLog (m : message)
| ConsoleError (m : message).

(** What a run is given and cannot change: the command line, the users
    collection (neither script writes to it), the successive readings of
    the clock, the time zone of the machine, and which database calls
    fail. [LocalTZA t true] is the offset of local time from UTC, in
    milliseconds, at the instant [t]; [LocalTZA t false] is the offset
    in force when the local clock shows [t]. *)
Record world : Type := {
  argv : list string;
  users : list user_doc;
  clock : nat -> Z;
  LocalTZA : Z -> bool -> Z;
  fails : db_call -> bool
}.

(** What a run can change: the conversations collection, keyed by [_id],
    and how many times the clock has been read. *)
Record store : Type := {
  conversations : gmap string conversation;
  clock_reads : nat
}.

Abbreviation Run := (M store event).

Definition DAYS_THRESHOLD : Z := 30.
Definition ms_per_day : Z := 86400000.

(** [const DRY_RUN = process.argv.includes('--dry-run')] *)
Definition DRY_RUN (w : world) : bool :=
  existsb (String.eqb "--dry-run") (argv w).

(** [/^[a-zA-Z0-9_]+$/.test(name)] *)
Fixpoint all_word (s : string) : bool :=
  match s with
  | EmptyString => true
  | String c s' => Render.is_word_char c && all_word s'
  end.

Definition valid_username (name : string) : bool :=
  match name with
  | EmptyString => false
  | _ => all_word name
  end.

(** A database call is attempted, and throws when the world says so. *)
Definition call (w : world) (c : db_call) : Run unit :=
  emit (Db c) >> (if fails w c then throw DbError else ret tt).

(** [User.findOne({ username }).lean()] *)
Definition findOne (w : world) (name : string) : Run (option user_doc) :=
  call w (FindUser name) >>
  ret (List.find (fun u => String.eqb (username u) name) (users w)).

(** The store after one more reading of the clock. *)
Definition tick (s : store) : store :=
  {| conversations := conversations s; clock_reads := S (clock_reads s) |}.

(** [new Date()]: the next reading of the clock. *)
Definition new_Date (w : world) : Run Z :=
  let! s := get in
  put (tick s) >>
  ret (clock w (clock_reads s)).

(** Time values, as ECMAScript computes with them: the day number and the
    time within the day of a time value, and the time value of a day
    number and a time within the day. *)
Definition Day (t : Z) : Z := (t / ms_per_day)%Z.
Definition TimeWithinDay (t : Z) : Z := (t mod ms_per_day)%Z.
Definition MakeDate (day time : Z) : Z := (day * ms_per_day + time)%Z.

(** The local time of an instant, and the instant of a local time. *)
Definition LocalTime (w : world) (t : Z) : Z := (t + LocalTZA w t true)%Z.
Definition UTC (w : world) (t : Z) : Z := (t - LocalTZA w t false)%Z.

(** [dateThreshold.setDate(dateThreshold.getDate() - DAYS_THRESHOLD)], for
    [dateThreshold] holding the instant [now]. [getDate] is the day of
    the month of the local time. [setDate(dt)] makes the local time of
    the day [MakeDay(year, month, dt)] of the same local year and month,
    at the same time within the day, and stores its instant. [MakeDay]
    counts from the first of the month, which is on day
    [Day(t) - getDate() + 1]: for [dt = getDate() - DAYS_THRESHOLD] it
    gives the local day number less [DAYS_THRESHOLD], whatever the month
    and the year. (Time values stay within the range of [Date].) *)
Definition dateThreshold (w : world) (now : Z) : Z :=
  let t := LocalTime w now in
  UTC w (MakeDate (Day t - DAYS_THRESHOLD) (TimeWithinDay t)).

(** The query [{ user: userId, updatedAt: { $lt: dateThreshold },
    isArchived: { $ne: true } }]. *)
Definition selected (userId : string) (before : Z) (c : conversation) : bool :=
  String.eqb (user c) userId
  && match updatedAt c with
     | Some t => (t <? before)%Z
     | None => false
     end
  && negb (bool_decide (isArchived c = Some true)).

(** [Conversation.find(query).lean()]: the matching documents with their
    [_id]s. *)
Definition find (w : world) (userId : string) (before : Z)
  : Run (list (string * conversation)) :=
  call w (FindConversations userId before) >>
  let! s := get in
  ret (map_to_list (filter (fun kc => selected userId before kc.2 = true)
                           (conversations s))).

(** [{ $set: { isArchived: true } }] on one document, as the update is
    written in the script. *)
Definition set_isArchived (c : conversation) : conversation :=
  {| user := user c; updatedAt := updatedAt c; isArchived := Some true |}.

(** The store after [isArchived] has been set on the documents whose
    [_id] is among [ids]. *)
Definition flagged (ids : list string) (s : store) : store :=
  {| conversations :=
       map_imap (fun id c =>
                   Some (if bool_decide (id ∈ ids) then set_isArchived c else c))
                (conversations s);
     clock_reads := clock_reads s |}.

(** [Conversation.updateMany({ _id: { $in: ids } },
    { $set: { isArchived: true } })] *)
Definition updateMany (w : world) (ids : list string) : Run unit :=
  call w (UpdateMany ids) >>
  let! s := get in
  put (flagged ids s).

Definition console_log (m : message) : Run unit := emit (ConsoleLog m).
Definition console_error (m : message) : Run unit := emit (ConsoleError m).

(** [const args = process.argv.slice(2)] *)
Definition usernamesToArchive (w : world) : list string := skipn 2 (argv w).

(** The body of the loop over the usernames. *)
Definition archive_user (w : world) (usernameToArchive : string) : Run unit :=
  when (negb (valid_username usernameToArchive))
       (console_error InvalidUsernameFormat >> exit 1) >>
  let! found := findOne w usernameToArchive in
  match found with
  | None => console_error (UserNotFound usernameToArchive) >> exit 1
  | Some u =>
      let userId := _id u in
      console_log (ProcessingConversations usernameToArchive userId) >>
      let! now := new_Date w in
      let! oldConversations := find w userId (dateThreshold w now) in
      let count := length oldConversations in
      if Nat.eqb count 0 then
        console_log (NoConversationsToArchive usernameToArchive)   (* continue *)
      else if DRY_RUN w then
        console_log (DryRunWouldArchive count usernameToArchive)   (* continue *)
      else
        console_log (Archiving count usernameToArchive) >>
        updateMany w (map fst oldConversations) >>
        console_log (Archived count usernameToArchive)
  end.

(** [archiveOldConversations] *)
Definition archiveOldConversations (w : world) : Run unit :=
  try_finally
    (try_catch
       (call w Connect >>
        console_log ConnectedToMongoDB >>
        let args := usernamesToArchive w in
        when (Nat.eqb (length args) 0)
             (console_error PleaseProvideUsername >> exit 1) >>
        for_of args (archive_user w) >>
        console_log ArchivingCompleted)
       (fun error => console_error (ErrorArchiving error)))
    (call w Disconnect >> console_log DisconnectedFromMongoDB).

(** What is left of [archiveOldConversations] once the loop has come to the
    usernames [rest]. *)
Definition finish (w : world) (rest : list string) : Run unit :=
  try_finally
    (try_catch
       (for_of rest (archive_user w) >> console_log ArchivingCompleted)
       (fun error => console_error (ErrorArchiving error)))
    (call w Disconnect >> console_log DisconnectedFromMongoDB).

(** The loop alone, as the script runs it. *)
Definition archive_all (w : world) (names : list string) : Run unit :=
  for_of names (archive_user w).

Definition initial (convs : gmap string conversation) : store :=
  {| conversations := convs; clock_reads := 0 |}.

(** A run of the script from a given conversations collection. *)
Definition run (w : world) (convs : gmap string conversation) : result store event unit :=
  archiveOldConversations w (initial convs).

(** The conversations collection is what it was. *)
Definition same_conversations (s s' : store) : Prop :=
  conversations s' = conversations s.

(** Every conversation that is archived is left as it is. *)
Definition archived_stay (s s' : store) : Prop :=
  forall id c,
    conversations s !! id = Some c ->
    isArchived c = Some true ->
    conversations s' !! id = Some c.

(** The [_id]s the query of a user's old conversations returns. *)
Definition selected_ids (userId : string) (before : Z)
           (convs : gmap string conversation) : list string :=
  map fst (map_to_list (filter (fun kc => selected userId before kc.2 = true) convs)).

(** The effect of the bulk update on one document. *)
Definition flag_if_selected (userId : string) (before : Z) (c : conversation)
  : conversation :=
  if selected userId before c then set_isArchived c else c.

Definition is_mutation (e : event) : bool :=
  match e with
  | Db (UpdateMany _) => true
  | _ => false
  end.

Definition no_mutation (e : event) : Prop := is_mutation e = false.

(** *** A small database to run the script on *)

Definition day (n : Z) : Z := (n * ms_per_day)%Z.

Definition example_users : list user_doc :=
  [ {| _id := "u1"; username := "alice" |};
    {| _id := "u2"; username := "bob" |} ].

(** On day 100, in a time zone that is UTC: [c1] is alice's and old, [c2] is alice's and recent, [c3]
    is alice's, old and archived already, [c4] is bob's and old. *)
Definition example_conversations : gmap string conversation :=
  list_to_map
    [ ("c1", {| user := "u1"; updatedAt := Some (day 10); isArchived := None |});
      ("c2", {| user := "u1"; updatedAt := Some (day 95); isArchived := Some false |});
      ("c3", {| user := "u1"; updatedAt := Some (day 5); isArchived := Some true |});
      ("c4", {| user := "u2"; updatedAt := Some (day 1); isArchived := Some false |}) ].

Definition example_world (args : list string) : world :=
  {| argv := "/usr/bin/node" :: "/app/api/archiveAllUserChats-30days.js" :: args;
     users := example_users;
     clock := fun _ => day 100;
     LocalTZA := fun _ _ => 0%Z;
     fails := fun _ => false |}.

(** The example database on a machine whose clocks are an hour ahead of
    UTC until day 80 and two hours ahead from then on; the hour the local
    clock skips is read with the offset in force before it. *)
Definition example_world_with_summer_time (args : list string) : world :=
  {| argv := "/usr/bin/node" :: "/app/api/archiveAllUserChats-30days.js" :: args;
     users := example_users;
     clock := fun _ => day 100;
     LocalTZA := fun t isUTC =>
                   if (t <? (if isUTC then day 80 else day 80 + 7200000))%Z
                   then 3600000%Z else 7200000%Z;
     fails := fun _ => false |}.

End Archive.

(** ** POSIX paths, as Node's [path] module computes them *)

Module Path.

Definition slash : ascii := "/"%char.

(** The segments between the separators of a path; a path of [n]
    separators has [n + 1] segments, some possibly empty. *)
Fixpoint segments (p : string) : list string :=
  match p with
  | EmptyString => [EmptyString]
  | String c p' =>
      if Ascii.eqb c slash then EmptyString :: segments p'
      else match segments p' with
           | seg :: rest => String c seg :: rest
           | [] => [String c EmptyString]
           end
  end.

Fixpoint unsegments (segs : list string) : string :=
  match segs with
  | [] => ""
  | [seg] => seg
  | seg :: rest => seg +:+ "/" +:+ unsegments rest
  end.

(** One segment met by [normalizeString]; [kept] holds the segments
    retained so far, the last one first. Empty and ["."] segments are
    dropped; [".."] removes the last retained segment, unless there is
    none or it is itself [".."], in which case it is retained when the
    path is relative and dropped when it is absolute. *)
Definition normalize_step (allowAboveRoot : bool) (kept : list string)
           (seg : string) : list string :=
  if String.eqb seg "" || String.eqb seg "." then kept
  else if String.eqb seg ".." then
    match kept with
    | last :: before =>
        if String.eqb last ".." then
          (if allowAboveRoot then seg :: kept else kept)
        else before
    | [] => if allowAboveRoot then [seg] else []
    end
  else seg :: kept.

Definition normalizeString (p : string) (allowAboveRoot : bool) : string :=
  unsegments (rev (fold_left (normalize_step allowAboveRoot) (segments p) [])).

Definition starts_with_slash (p : string) : bool :=
  match p with
  | String c _ => Ascii.eqb c slash
  | EmptyString => false
  end.

Fixpoint ends_with_slash (p : string) : bool :=
  match p with
  | EmptyString => false
  | String c EmptyString => Ascii.eqb c slash
  | String _ p' => ends_with_slash p'
  end.

(** [path.posix.normalize] *)
Definition normalize (p : string) : string :=
  match p with
  | EmptyString => "."
  | _ =>
      let isAbsolute := starts_with_slash p in
      let trailingSeparator := ends_with_slash p in
      let body := normalizeString p (negb isAbsolute) in
      match body with
      | EmptyString =>
          if isAbsolute then "/" else if trailingSeparator then "./" else "."
      | _ =>
          let body := if trailingSeparator then body +:+ "/" else body in
          if isAbsolute then "/" +:+ body else body
      end
  end.

(** [path.posix.join]: the non-empty arguments are put together with
    separators, and the result is normalized. *)
Definition join (args : list string) : string :=
  match List.filter (fun a => negb (String.eqb a "")) args with
  | [] => "."
  | parts => normalize (unsegments parts)
  end.

(** [path.posix.dirname]. The scan runs from the end of the path down to
    its second character: [skip_trailing] passes the separators the path
    ends with, [skip_name] the last name, and what is before the
    separator then met is the directory. Both work on the characters
    after the first, in reverse order. *)
Fixpoint skip_name (rev_tail : list ascii) : option (list ascii) :=
  match rev_tail with
  | [] => None
  | c :: rest => if Ascii.eqb c slash then Some rest else skip_name rest
  end.

Fixpoint skip_trailing (rev_tail : list ascii) : option (list ascii) :=
  match rev_tail with
  | [] => None
  | c :: rest => if Ascii.eqb c slash then skip_trailing rest else skip_name rest
  end.

Definition dirname (p : string) : string :=
  match p with
  | EmptyString => "."
  | String c0 tail =>
      let hasRoot := Ascii.eqb c0 slash in
      match skip_trailing (rev (list_ascii_of_string tail)) with
      | None => if hasRoot then "/" else "."
      | Some [] => if hasRoot then "//" else String c0 EmptyString
      | Some before => String c0 (string_of_list_ascii (rev before))
      end
  end.

Fixpoint has_slash (s : string) : bool :=
  match s with
  | EmptyString => false
  | String c s' => Ascii.eqb c slash || has_slash s'
  end.

(** A plain name: a segment that normalization keeps as it is. *)
Definition is_name (s : string) : bool :=
  negb (has_slash s) && negb (String.eqb s "") && negb (String.eqb s ".")
  && negb (String.eqb s "..").

End Path.

(** ** The export script ([exportUserConversations], [exportAllUsers]) *)

Module ExportScript.
Import Script.
Local Open Scope script_scope.

(** A user document; [username] may be missing from it. *)
Record user_doc : Type := {
  _id : string;
  username : option string
}.

(** The fields of a conversation document the script reads. [title] and
    [model] may be missing. *)
Record conversation : Type := {
  user : string;
  conversationId : string;
  title : option string;
  model : option string
}.

(** The calls the script makes on the database and the file system. *)
Inductive io_call : Type :=
| Connect
| ListUsers
| FindConversations (userId : string)
| GetMessages (conversationId : string)
| FindUserById (userId : string)
| Mkdir (dir : string)
| WriteFile (file content : string)
| Disconnect.

Inductive message_line : Type :=
| NoConversationsFound (userId : string)
| NoMessagesFound (conversationId : string)
| ConversationExported (title file : string)
| ErrorExporting (e : js_error)
| ErrorFetchingUsers (e : js_error)
| FinishedExporting.

Inductive event : Type :=
| Io (c : io_call)
| ConsoleLog (m : message_line)
| ConsoleError (m : message_line).

Definition exportDir : string := "export".

Definition double_quote : ascii := ascii_of_nat 34.

(** The character class of the regular expression in [title.replace]:
    slash, backslash, question mark, percent, star, colon, bar, double
    quote, and the two angle brackets. *)
Definition is_special (c : ascii) : bool :=
  existsb (Ascii.eqb c)
          [ "/"%char; "\"%char; "?"%char; "%"%char; "*"%char; ":"%char;
            "|"%char; double_quote; "<"%char; ">"%char ].

(** [title.replace(re, '-')], with the global flag: every occurrence. *)
Fixpoint sanitize (t : string) : string :=
  match t with
  | EmptyString => EmptyString
  | String c t' => String (if is_special c then "-"%char else c) (sanitize t')
  end.

(** How a template literal prints an optional string field. *)
Definition interpolate (field : option string) : string :=
  default "undefined" field.

(** What the runtime holds of promises rejected with nobody waiting for
    them is the state of a run: [None] when there is none, [Some n] when
    one is on its way and the script completes [n] more awaited calls
    before Node reports it.

    [await]: the script gives way to the event loop. An unhandled
    rejection that has come due is reported there, and Node (from
    version 15 on) ends the process with status 1; one that has not
    comes one [await] closer. *)
Definition await_turn : M (option nat) event unit :=
  let! pending := get in
  match pending with
  | Some O => exit 1
  | Some (S n) => put (Some n)
  | None => ret tt
  end.

(** The calls the script awaits; [mkdirSync] and [writeFileSync] return
    without giving way. *)
Definition awaited (c : io_call) : bool :=
  match c with
  | Mkdir _ | WriteFile _ _ => false
  | _ => true
  end.

Section WithMessages.
(** A message document is exported as it is; [JSON_stringify] stands for
    [JSON.stringify(messages, null, 2)]. *)
Context {message : Type} (JSON_stringify : list message -> string).

(** The database the run reads, which calls fail, and [grace]: how many
    awaited calls the script still completes between a call whose
    promise is rejected with nobody waiting for it and the report of the
    unhandled rejection. The file system is written to and never read,
    so what the run does to it is in its trace. *)
Record world : Type := {
  users : list user_doc;
  conversations : list conversation;
  messages : string -> list message;
  fails : io_call -> bool;
  grace : nat
}.

Abbreviation Run := (M (option nat) event).

(** A call that is awaited, or synchronous: it throws when it fails. *)
Definition call (w : world) (c : io_call) : Run unit :=
  emit (Io c) >>
  when (awaited c) await_turn >>
  (if fails w c then throw (match c with
                            | Mkdir _ | WriteFile _ _ => FsError
                            | _ => DbError
                            end)
   else ret tt).

(** One more promise is rejected with nobody waiting for it: the first of
    the rejections on their way to come due is the one reported. *)
Definition reject (w : world) (pending : option nat) : option nat :=
  Some match pending with
       | Some n => Nat.min n (grace w)
       | None => grace w
       end.

(** A call that is not awaited and whose promise has no handler: the
    script goes on at once, and nothing is thrown into it when the call
    fails; the rejection is left to the runtime. *)
Definition unawaited (w : world) (c : io_call) : Run unit :=
  emit (Io c) >>
  when (fails w c) (let! pending := get in put (reject w pending)).

Definition console_log (m : message_line) : Run unit := emit (ConsoleLog m).
Definition console_error (m : message_line) : Run unit := emit (ConsoleError m).

(** [user?.username ?? 'unknown_user'] *)
Definition userName_of (found : option user_doc) : string :=
  match found with
  | Some u => default "unknown_user" (username u)
  | None => "unknown_user"
  end.

Definition fileName (conversationTitle : string) (c : conversation) : string :=
  conversationTitle +:+ "--" +:+ interpolate (model c) +:+ "-"
                    +:+ conversationId c +:+ ".json".

(** The export path as the specification words it:
    [<export-root>/<username>/<sanitized-title>--<model>-<conversation-id>.json]. *)
Definition path_as_specified (userName conversationTitle : string)
           (c : conversation) : string :=
  exportDir +:+ "/" +:+ userName +:+ "/" +:+ fileName conversationTitle c.

(** [path.join(exportDir, userName, `${conversationTitle}--...json`)] *)
Definition exportPath_of (userName conversationTitle : string)
           (c : conversation) : string :=
  Path.join [exportDir; userName; fileName conversationTitle c].

(** The body of the loop over a user's conversations. *)
Definition export_conversation (w : world) (userId : string)
           (c : conversation) : Run unit :=
  let! conversationTitle :=
    match title c with
    | Some t => ret (sanitize t)
    | None => throw TypeError          (* undefined.replace *)
    end in
  call w (GetMessages (conversationId c)) >>
  let msgs := messages w (conversationId c) in
  if Nat.eqb (length msgs) 0 then
    console_log (NoMessagesFound (conversationId c))            (* continue *)
  else
    call w (FindUserById userId) >>
    let found := List.find (fun u => String.eqb (_id u) userId) (users w) in
    let userName := userName_of found in
    let exportPath := exportPath_of userName conversationTitle c in
    call w (Mkdir (Path.dirname exportPath)) >>
    call w (WriteFile exportPath (JSON_stringify msgs)) >>
    console_log (ConversationExported (default "" (title c)) exportPath).

(** [exportUserConversations]; the [disconnect] of its [finally] is
    neither awaited nor handled. *)
Definition exportUserConversations (w : world) (userId : string) : Run unit :=
  try_finally
    (try_catch
       (call w Connect >>
        call w (FindConversations userId) >>
        let found :=
          List.filter (fun c => String.eqb (user c) userId) (conversations w) in
        if Nat.eqb (length found) 0 then
          console_log (NoConversationsFound userId)              (* return *)
        else
          for_of found (export_conversation w userId))
       (fun error => console_error (ErrorExporting error)))
    (unawaited w Disconnect).

(** [exportAllUsers]; its [await] of [exportUserConversations] goes on in
    the turn of the event loop in which that function returns, and its
    [disconnect] is neither awaited nor handled either. *)
Definition exportAllUsers (w : world) : Run unit :=
  try_finally
    (try_catch
       (call w Connect >>
        call w ListUsers >>
        for_of (users w) (fun u => exportUserConversations w (_id u)))
       (fun error => console_error (ErrorFetchingUsers error)))
    (unawaited w Disconnect).

(** The script:
    [exportAllUsers().then(() => console.log(...)).catch(console.error)],
    started with no rejection on its way. [exportAllUsers] throws
    nothing, so that the [catch] has nothing to report. When the script
    has nothing left to do, a rejection still on its way is reported,
    and the process ends with status 1. *)
Definition main (w : world) : result (option nat) event unit :=
  (exportAllUsers w >>
   console_log FinishedExporting >>
   let! pending := get in
   match pending with
   | Some _ => exit 1
   | None => ret tt
   end) None.

(** The files a trace writes, in order. *)
Definition written (t : list event) : list (string * string) :=
  flat_map (fun e => match e with
                     | Io (WriteFile file content) => [(file, content)]
                     | _ => []
                     end) t.

End WithMessages.

Arguments world : clear implicits.

(** *** A small database to run the script on *)

(** Messages as their JSON text, and a printer that puts them in
    brackets, with commas between them. *)
Definition example_stringify (msgs : list string) : string :=
  "[" +:+ String.concat "," msgs +:+ "]".

Definition example_users : list user_doc :=
  [ {| _id := "u1"; username := Some "ann" |};
    {| _id := "u2"; username := Some "bob" |};
    {| _id := "u3"; username := Some "" |} ].

Definition example_conversations : list conversation :=
  [ {| user := "u1"; conversationId := "c1";
       title := Some "Plans"; model := Some "gpt-4" |};
    {| user := "u2"; conversationId := "c2";
       title := Some "Q&A: 50%/100%?"; model := Some "gpt-4" |};
    {| user := "u3"; conversationId := "c3";
       title := Some "Notes"; model := Some "gpt-4" |} ].

Definition example_messages (conversationId : string) : list string :=
  [ "{}" ].

(** The example database, in which the calls in [broken] fail, and an
    unhandled rejection is reported at the second awaited call after
    it. *)
Definition example_world (broken : io_call -> bool) : world string :=
  {| users := example_users;
     conversations := example_conversations;
     messages := example_messages;
     fails := broken;
     grace := 1 |}.

Definition nothing_fails (c : io_call) : bool := false.

Definition messages_of_c1_fail (c : io_call) : bool :=
  match c with
  | GetMessages id => String.eqb id "c1"
  | _ => false
  end.

Definition disconnect_fails (c : io_call) : bool :=
  match c with
  | Disconnect => true
  | _ => false
  end.

End ExportScript.

(** ** Relations between the stores of the archival script *)

Module ArchiveInvariants.
Import Archive.

(** The document [c] stored under [id] is still there, as it was. *)
Definition untouched (id : string) (c : conversation) (s s' : store) : Prop :=
  conversations s !! id = Some c -> conversations s' !! id = Some c.

Definition is_disconnect (e : event) : bool :=
  match e with
  | Db Disconnect => true
  | _ => false
  end.

(** A world like [example_world] in which looking users up fails. *)
Definition example_world_without_lookup (args : list string) : world :=
  {| argv := argv (example_world args);
     users := example_users;
     clock := fun _ => day 100;
     LocalTZA := fun _ _ => 0%Z;
     fails := fun c => match c with FindUser _ => true | _ => false end |}.

(** A world like [example_world] in which the database cannot be
    reached. *)
Definition example_world_offline (args : list string) : world :=
  {| argv := argv (example_world args);
     users := example_users;
     clock := fun _ => day 100;
     LocalTZA := fun _ _ => 0%Z;
     fails := fun c => match c with Connect => true | _ => false end |}.

End ArchiveInvariants.

(** ** What the export script is expected to write *)

Module ExportFiles.
Import Script ExportScript.

(** A computation that, started with no rejection on its way, leaves
    none, does not end the process, and emits only events in [P]. *)
Definition settled (P : event -> Prop) {A} (m : M (option nat) event A) : Prop :=
  state (m None) = None
  /\ (forall code, ending (m None) <> Exited code)
  /\ Forall P (trace (m None)).

(** A computation that ends the process with no other status than 1. *)
Definition exits_with_one {A} (m : M (option nat) event A) : Prop :=
  forall s code, ending (m s) = Exited code -> code = 1%Z.

(** An event that is neither the closing of the connection nor a report of
    an error. *)
Definition is_calm (e : event) : bool :=
  match e with
  | Io Disconnect | ConsoleError _ => false
  | _ => true
  end.

Section WithMessages.
Context {message : Type} (JSON_stringify : list message -> string).

(** The file of a conversation: none when it has no title or no message. *)
Definition file_of (w : world message) (userId : string) (c : conversation)
  : list (string * string) :=
  match title c, messages w (conversationId c) with
  | Some t, m :: msgs =>
      [ (exportPath_of
           (userName_of (List.find (fun u => String.eqb (_id u) userId) (users w)))
           (sanitize t) c,
         JSON_stringify (m :: msgs)) ]
  | _, _ => []
  end.

(** The files of a user: those of the conversations the user owns, in the
    order of the collection. *)
Definition files_of_user (w : world message) (userId : string)
  : list (string * string) :=
  flat_map (file_of w userId)
           (List.filter (fun c => String.eqb (user c) userId) (conversations w)).

End WithMessages.

(** The example database without its conversations. *)
Definition example_world_without_conversations : world string :=
  {| users := example_users;
     conversations := [];
     messages := example_messages;
     fails := nothing_fails;
     grace := 1 |}.

Definition connection_fails (c : io_call) : bool :=
  match c with
  | Connect => true
  | _ => false
  end.

End ExportFiles.

(** ** React nodes, the events of the editor widget, the copy button *)

Module Nodes.
Import Render.

(** The values of type [React.ReactNode]: strings, numbers, booleans,
    [null], [undefined], arrays of nodes, and elements whose children, when
    they have some, are nodes. No plain object is one. *)
Fixpoint react_node (v : value) : bool :=
  match v with
  | VArr items => forallb react_node items
  | VElem props => with_key "children" react_node true props
  | VObj _ => false
  | VUndefined | VNull | VBool _ | VNum _ | VStr _ => true
  end.

(** The text of a React node: that of its leaves, from left to right. *)
Fixpoint text_of (v : value) : string :=
  match v with
  | VArr items => join "" (map text_of items)
  | VElem props => with_key "children" text_of "" props
  | VStr s => s
  | VNum shown => shown
  | VBool true => "true"
  | VBool false => "false"
  | VUndefined | VNull | VObj _ => ""
  end.

End Nodes.

Module Tags.
Import Render.

(** A text made of word characters only: what [\w*] can match whole. *)
Definition word (w : string) : bool :=
  forallb is_word_char (list_ascii_of_string w).

(** A text at whose head a greedy [\w+] has to stop: the empty text, or one
    that starts with a character [\w] refuses. *)
Definition word_ends (rest : string) : bool :=
  match rest with
  | EmptyString => true
  | String c _ => negb (is_word_char c)
  end.

(** A text without hyphen. *)
Definition no_hyphen (s : string) : bool :=
  forallb (fun c => negb (Ascii.eqb "-" c)) (list_ascii_of_string s).

End Tags.

Module WidgetEvents.
Import Render.

(** What can happen to a widget on the page: the window is resized, the
    status-bar button is pressed, a language of the dropdown is picked. *)
Inductive widget_event : Type :=
| Resize
| PressLanguageButton
| PickLanguage (lang : string).

Definition widget_step (w : widget) (e : widget_event) : widget :=
  match e with
  | Resize => updateHeight w
  | PressLanguageButton => toggleLanguages w
  | PickLanguage lang => handleLanguageChange lang w
  end.

(** The languages picked in the dropdown among events, in order. *)
Definition picked (events : list widget_event) : list string :=
  flat_map (fun e => match e with
                     | PickLanguage lang => [lang]
                     | Resize | PressLanguageButton => []
                     end) events.

(** The life of a widget: rendered from its props, it meets the events
    [before], its editor is mounted, and it meets the events [after]. *)
Definition lived (props : MonacoEditorProps) (before after : list widget_event)
  : widget :=
  fold_left widget_step after
            (handleEditorDidMount
               (fold_left widget_step before (MonacoEditor props))).

(** What holds of a widget from the mounting of its editor on. *)
Definition in_step (props : MonacoEditorProps) (w : widget) : Prop :=
  shown_mode w = Some (currentLanguage w)
  /\ shown_text w = Some (content props).

(** What holds of a widget all its life. *)
Definition as_rendered (props : MonacoEditorProps) (w : widget) : Prop :=
  w_content w = content props
  /\ w_readOnly w = default true (readOnly props)
  /\ w_filename w = default "untitled" (filename props)
  /\ (200 <= w_height w <= 600)%Z.

End WidgetEvents.

Module CopyButton.

(** The state of [CopyCodeButton]: the [isCopied] flag, the number of
    timers set and not yet fired (they all do the same thing when they
    fire), and what has been put on the clipboard, oldest first. *)
Record button : Type := {
  isCopied : bool;
  pending : nat;
  clipboard : list string
}.

Definition CopyCodeButton : button :=
  {| isCopied := false; pending := 0; clipboard := [] |}.

(** [handleCopy]: [copy(content, ...)], [setIsCopied(true)],
    [setTimeout(() => setIsCopied(false), 3000)]. *)
Definition handleCopy (content : string) (b : button) : button :=
  {| isCopied := true;
     pending := S (pending b);
     clipboard := clipboard b ++ [content] |}.

(** A timer comes due: [setIsCopied(false)]. Without a timer set nothing
    can come due. *)
Definition timer_fires (b : button) : button :=
  match pending b with
  | O => b
  | S n => {| isCopied := false; pending := n; clipboard := clipboard b |}
  end.

Inductive button_event : Type :=
| Click
| TimerDue.

Definition button_step (content : string) (b : button) (e : button_event) : button :=
  match e with
  | Click => handleCopy content b
  | TimerDue => timer_fires b
  end.

(** The number of clicks among events. *)
Definition clicks (events : list button_event) : nat :=
  length (List.filter (fun e => match e with Click => true | TimerDue => false end)
                      events).

(** What holds of a copy button whatever is done to it. *)
Definition acknowledged_with_timer (b : button) : Prop :=
  isCopied b = true -> 0 < pending b.

End CopyButton.

(** * Properties *)

(** ** Object literals *)

Section PropsFacts.
Context {V : Type}.

Lemma with_key_get {A} k (o : list (string * V)) (some : V -> A) none :
  with_key k some none o =
  match get_key k o with Some v => some v | None => none end.
Proof.
  induction o as [|[k' v] o IH]; simpl; [reflexivity|].
  destruct (String.eqb k k'); [reflexivity|exact IH].
Qed.

Lemma has_key_get k (o : list (string * V)) :
  has_key k o = match get_key k o with Some _ => true | None => false end.
Proof.
  induction o as [|[k' v] o IH]; simpl; [reflexivity|].
  destruct (String.eqb k k'); [reflexivity|exact IH].
Qed.
End PropsFacts.

(** ** The script monad *)

Module ScriptFacts.
Import Script.
Local Open Scope script_scope.

Section Laws.
Context {S E : Type}.
Implicit Types (s : S) (t : list E).

Lemma result_eta {A} (r : result S E A) :
  r = Result (trace r) (state r) (ending r).
Proof. destruct r; reflexivity. Qed.

(** A computation whose first part returns goes on with the rest. *)
Lemma bind_returned {A B} (m : M S E A) (k : A -> M S E B) s t s' a :
  m s = Result t s' (Returned a) ->
  bind m k s = prepend t (k a s').
Proof. intros H. unfold bind, prepend. rewrite H. reflexivity. Qed.

Lemma bind_thrown {A B} (m : M S E A) (k : A -> M S E B) s t s' e :
  m s = Result t s' (Thrown e) ->
  bind m k s = Result t s' (Thrown e).
Proof. intros H. unfold bind. rewrite H. reflexivity. Qed.

Lemma bind_exited {A B} (m : M S E A) (k : A -> M S E B) s t s' c :
  m s = Result t s' (Exited c) ->
  bind m k s = Result t s' (Exited c).
Proof. intros H. unfold bind. rewrite H. reflexivity. Qed.

(** A handler or a cleanup around a computation whose first part returns
    is as well put around the rest. *)
Lemma try_catch_bind_returned {A B} (m : M S E A) (k : A -> M S E B) h s t s' a :
  m s = Result t s' (Returned a) ->
  try_catch (bind m k) h s = prepend t (try_catch (k a) h s').
Proof.
  intros H. unfold try_catch. rewrite (bind_returned _ _ _ _ _ _ H).
  unfold prepend; cbn.
  destruct (k a s') as [t2 s2 [b|e|c]]; cbn; try reflexivity.
  now rewrite <- List.app_assoc.
Qed.

Lemma try_catch_prepend {A} (body body' : M S E A) h s t s' :
  body s = prepend t (body' s') ->
  try_catch body h s = prepend t (try_catch body' h s').
Proof.
  intros H. unfold try_catch. rewrite H. unfold prepend; cbn.
  destruct (body' s') as [t2 s2 [b|e|c]]; cbn; try reflexivity.
  now rewrite <- List.app_assoc.
Qed.

Lemma try_finally_prepend {A} (body body' : M S E A) fin s t s' :
  body s = prepend t (body' s') ->
  try_finally body fin s = prepend t (try_finally body' fin s').
Proof.
  intros H. unfold try_finally. rewrite H. unfold prepend; cbn.
  destruct (body' s') as [t2 s2 [b|e|c]]; cbn; try reflexivity;
    now rewrite <- List.app_assoc.
Qed.

Lemma try_catch_returned {A} (body : M S E A) h s t s' a :
  body s = Result t s' (Returned a) ->
  try_catch body h s = Result t s' (Returned a).
Proof. intros H. unfold try_catch. rewrite H. reflexivity. Qed.

(** Once the process has exited, neither handler nor cleanup runs. *)
Lemma try_catch_exited {A} (body : M S E A) h s t s' c :
  body s = Result t s' (Exited c) ->
  try_catch body h s = Result t s' (Exited c).
Proof. intros H. unfold try_catch. rewrite H. reflexivity. Qed.

Lemma try_finally_exited {A} (body : M S E A) fin s t s' c :
  body s = Result t s' (Exited c) ->
  try_finally body fin s = Result t s' (Exited c).
Proof. intros H. unfold try_finally. rewrite H. reflexivity. Qed.

Lemma bind_assoc {A B C} (m : M S E A) (k : A -> M S E B) (k' : B -> M S E C) s :
  bind (bind m k) k' s = bind m (fun a => bind (k a) k') s.
Proof.
  unfold bind; cbn.
  destruct (m s) as [t1 s1 [a|e|c]]; cbn; try reflexivity.
  destruct (k a s1) as [t2 s2 [b|e|c]]; cbn; try reflexivity.
  now rewrite <- List.app_assoc.
Qed.

Lemma bind_ext {A B} (m : M S E A) (k k' : A -> M S E B) s :
  (forall a s', k a s' = k' a s') -> bind m k s = bind m k' s.
Proof.
  intros H. unfold bind.
  destruct (ending (m s)); try reflexivity. now rewrite H.
Qed.

(** Each construction looks at its body only through its result. *)
Lemma bind_ext_l {A B} (m m' : M S E A) (k : A -> M S E B) s :
  m s = m' s -> bind m k s = bind m' k s.
Proof. intros H. unfold bind. now rewrite H. Qed.

Lemma try_catch_ext {A} (m m' : M S E A) h s :
  m s = m' s -> try_catch m h s = try_catch m' h s.
Proof. intros H. unfold try_catch. now rewrite H. Qed.

Lemma ret_bind {A B} (a : A) (k : A -> M S E B) s : bind (ret a) k s = k a s.
Proof. unfold bind, ret; cbn. now destruct (k a s). Qed.

Lemma for_of_app {A} (xs ys : list A) (body : A -> M S E unit) s :
  for_of (xs ++ ys) body s = bind (for_of xs body) (fun _ => for_of ys body) s.
Proof.
  revert s. induction xs as [|x xs IH]; intros s.
  - cbn [app for_of]. now rewrite ret_bind.
  - cbn [app for_of]. rewrite bind_assoc.
    apply bind_ext. intros _ s'. apply IH.
Qed.

End Laws.

(** Closure of [keeps] under the constructions of a script, for a
    reflexive and transitive relation on states. *)
Section Keeps.
Context {S E : Type} (R : S -> S -> Prop) (P : E -> Prop).
Context (R_refl : forall s, R s s).
Context (R_trans : forall s1 s2 s3, R s1 s2 -> R s2 s3 -> R s1 s3).

Lemma keeps_ret {A} (a : A) : keeps R P (ret a).
Proof. intros s. split; [apply R_refl|constructor]. Qed.

Lemma keeps_throw {A} e : keeps R P (@throw S E A e).
Proof. intros s. split; [apply R_refl|constructor]. Qed.

Lemma keeps_exit {A} c : keeps R P (@exit S E A c).
Proof. intros s. split; [apply R_refl|constructor]. Qed.

Lemma keeps_get : keeps R P (@get S E).
Proof. intros s. split; [apply R_refl|constructor]. Qed.

Lemma keeps_emit e : P e -> keeps R P (@emit S E e).
Proof. intros He s. split; [apply R_refl|]. cbn. now repeat constructor. Qed.

Lemma keeps_bind {A B} (m : M S E A) (k : A -> M S E B) :
  keeps R P m -> (forall a, keeps R P (k a)) -> keeps R P (bind m k).
Proof.
  intros Hm Hk s. unfold bind. destruct (Hm s) as [HR HP].
  destruct (ending (m s)) as [a|e|c]; cbn; try (split; assumption).
  destruct (Hk a (state (m s))) as [HR' HP'].
  split; [eapply R_trans; eassumption|]. apply Forall_app. now split.
Qed.

Lemma keeps_try_catch {A} (m : M S E A) h :
  keeps R P m -> (forall e, keeps R P (h e)) -> keeps R P (try_catch m h).
Proof.
  intros Hm Hh s. unfold try_catch. destruct (Hm s) as [HR HP].
  destruct (ending (m s)) as [a|e|c]; cbn; try (split; assumption).
  destruct (Hh e (state (m s))) as [HR' HP'].
  split; [eapply R_trans; eassumption|]. apply Forall_app. now split.
Qed.

Lemma keeps_try_finally {A} (m : M S E A) fin :
  keeps R P m -> keeps R P fin -> keeps R P (try_finally m fin).
Proof.
  intros Hm Hf s. unfold try_finally. destruct (Hm s) as [HR HP].
  destruct (Hf (state (m s))) as [HR' HP'].
  destruct (ending (m s)) as [a|e|c]; cbn; try (split; assumption);
    (split; [eapply R_trans; eassumption|apply Forall_app; now split]).
Qed.

Lemma keeps_when c (m : M S E unit) : keeps R P m -> keeps R P (when c m).
Proof. intros Hm. destruct c; [exact Hm|apply keeps_ret]. Qed.

Lemma keeps_for_of {A} (xs : list A) (body : A -> M S E unit) :
  (forall x, keeps R P (body x)) -> keeps R P (for_of xs body).
Proof.
  intros Hb. induction xs as [|x xs IH]; cbn [for_of].
  - apply keeps_ret.
  - apply keeps_bind; [apply Hb|intros _; exact IH].
Qed.
End Keeps.

End ScriptFacts.

(** ** The flattener and the [code] component *)

Module RenderFacts.
Import Render.

(** [processContent] on a plain object, with the lookups of the source
    written apart. *)
Lemma processContent_object fields :
  processContent (VObj fields) =
  match get_key "value" fields with
  | Some x => String_ x
  | None =>
      match get_key "raw" fields with
      | Some x => String_ x
      | None =>
          match get_key "props" fields with
          | Some p =>
              cbind (children_in p) (fun has =>
                if has then
                  match p with
                  | VObj ps => processContent (default VUndefined (get_key "children" ps))
                  | _ => String_ (VObj fields)
                  end
                else String_ (VObj fields))
          | None => String_ (VObj fields)
          end
      end
  end.
Proof.
  cbn [processContent]. rewrite !with_key_get.
  destruct (get_key "value" fields) as [x|]; [reflexivity|].
  destruct (get_key "raw" fields) as [x|]; [reflexivity|].
  destruct (get_key "props" fields) as [p|]; [|reflexivity].
  destruct p as [| | | | |items|qs|ps]; try reflexivity.
  cbn [children_in cbind]. rewrite with_key_get, has_key_get.
  destruct (get_key "children" ps); reflexivity.
Qed.

Lemma processContent_element props :
  processContent (VElem props) =
  processContent (default VUndefined (get_key "children" props)).
Proof.
  cbn [processContent]. rewrite with_key_get.
  destruct (get_key "children" props); reflexivity.
Qed.

Lemma collect_strings (f : value -> completion string) (g : string -> value)
      (texts : list string) :
  (forall t, f (g t) = Normal t) ->
  collect (map f (map g texts)) = Normal texts.
Proof.
  intros Hfg. induction texts as [|t texts IH]; [reflexivity|].
  cbn [map collect]. rewrite Hfg, IH. reflexivity.
Qed.

Lemma join_empty_concat parts : join "" parts = String.concat "" parts.
Proof.
  induction parts as [|p [|q parts] IH]; [reflexivity|reflexivity|].
  change (join "" (p :: q :: parts)) with (p +:+ "" +:+ join "" (q :: parts)).
  rewrite IH. reflexivity.
Qed.

(** On a regular node the code and the rules of the specification agree. *)
Lemma processContent_regular :
  forall node, regular node = true -> processContent node = flatten_as_specified node.
Proof.
  fix IH 1.
  intros [| |b|shown|s|items|props|fields] Hreg; try reflexivity.
  - cbn [processContent flatten_as_specified].
    enough (map processContent items = map flatten_as_specified items) as ->
        by reflexivity.
    cbn [regular] in Hreg.
    induction items as [|x items IHitems]; [reflexivity|].
    cbn [forallb] in Hreg. apply andb_true_iff in Hreg as [Hx Hitems].
    cbn [map]. f_equal; [exact (IH x Hx)|exact (IHitems Hitems)].
  - cbn [processContent flatten_as_specified regular] in *.
    generalize (String_ (VElem props)) as fallback.
    induction props as [|[k x] props IHprops]; intros fallback; [discriminate Hreg|].
    cbn [with_key] in *.
    destruct (String.eqb "children" k); [exact (IH x Hreg)|exact (IHprops Hreg fallback)].
  - cbn [processContent flatten_as_specified regular] in *.
    rewrite !(with_key_get "value"), !(with_key_get "raw") in *.
    destruct (get_key "value" fields); [reflexivity|].
    destruct (get_key "raw" fields); [reflexivity|].
    generalize (String_ (VObj fields)) as fallback.
    induction fields as [|[k p] fields IHfields]; intros fallback; [reflexivity|].
    cbn [with_key] in *.
    destruct (String.eqb "props" k); [|exact (IHfields Hreg fallback)].
    destruct p as [| |b|shown|s|items|qs|ps]; try discriminate Hreg; try reflexivity.
    clear IHfields.
    induction ps as [|[k' c] ps IHps]; [reflexivity|].
    cbn [with_key] in *.
    destruct (String.eqb "children" k'); [exact (IH c Hreg)|exact (IHps Hreg)].
Qed.

Lemma processContent_raw_node text : processContent (raw_node text) = Normal text.
Proof. reflexivity. Qed.

(** C1, as stated, fails: a React element without children (an empty
    [span], a [br]) exposes no [value], no [raw] and no [props.children],
    so the rules of the claim give it its default string form; the code
    takes the element branch first and flattens its absent children to the
    empty string. *)
Lemma processContent_childless_element :
  get_key "children" ([] : list (string * value)) = None
  /\ processContent (VElem []) = Normal ""
  /\ flatten_as_specified (VElem []) = Normal "[object Object]"
  /\ processContent (VElem []) <> flatten_as_specified (VElem []).
Proof. repeat split; try reflexivity. discriminate. Qed.

(** C1, amended: [processContent] flattens a node by the first rule that
    applies, in this order. An array yields the in-order concatenation of
    its flattened elements. A React element yields its flattened
    [props.children], the empty string when it has none. Any other object
    with a [value] field yields the string form of that field; failing
    that, one with a [raw] field yields the string form of that field;
    failing that, one whose [props] is an object with a [children] field
    yields those children flattened; an object with none of these (no
    [props], or a [props] object without [children]) yields its default
    string form. [undefined] and [null] yield the empty string, and a
    boolean, number or string its string form. In particular a plain
    string, a one-level array of strings, and a node exposing a raw-text
    field (alone, under an element, or in an array) flatten to exactly
    their literal text. On every node in which the flattener meets no React
    element without children and no [props] field holding a primitive, the
    result is the one the rules of the specification give. *)
Theorem processContent_by_shape :
  (forall items,
      processContent (VArr items) =
      cbind (collect (map processContent items))
            (fun parts => Normal (String.concat "" parts)))
  /\ (forall props,
        processContent (VElem props) =
        processContent (default VUndefined (get_key "children" props)))
  /\ (forall fields x,
        get_key "value" fields = Some x ->
        processContent (VObj fields) = String_ x)
  /\ (forall fields x,
        get_key "value" fields = None ->
        get_key "raw" fields = Some x ->
        processContent (VObj fields) = String_ x)
  /\ (forall fields ps c,
        get_key "value" fields = None ->
        get_key "raw" fields = None ->
        get_key "props" fields = Some (VObj ps) ->
        get_key "children" ps = Some c ->
        processContent (VObj fields) = processContent c)
  /\ (forall fields,
        get_key "value" fields = None ->
        get_key "raw" fields = None ->
        match get_key "props" fields with
        | Some p => children_in p = Normal false
        | None => True
        end ->
        processContent (VObj fields) = String_ (VObj fields))
  /\ processContent VUndefined = Normal ""
  /\ processContent VNull = Normal ""
  /\ (forall b, processContent (VBool b) = String_ (VBool b))
  /\ (forall shown, processContent (VNum shown) = Normal shown)
  /\ (forall s, processContent (VStr s) = Normal s)
  /\ (forall texts,
        processContent (VArr (map VStr texts)) = Normal (String.concat "" texts))
  /\ (forall text, processContent (raw_node text) = Normal text)
  /\ (forall text,
        processContent (VElem [("children", raw_node text)]) = Normal text)
  /\ (forall texts,
        processContent (VArr (map raw_node texts)) = Normal (String.concat "" texts))
  /\ (forall node,
        regular node = true -> processContent node = flatten_as_specified node).
Proof.
  repeat match goal with |- _ /\ _ => split end; try reflexivity;
    try exact processContent_regular.
  - apply processContent_element.
  - intros fields x Hv. now rewrite processContent_object, Hv.
  - intros fields x Hv Hr. now rewrite processContent_object, Hv, Hr.
  - intros fields ps c Hv Hr Hp Hc.
    rewrite processContent_object, Hv, Hr, Hp. cbn [children_in cbind].
    now rewrite has_key_get, Hc.
  - intros fields Hv Hr Hp. rewrite processContent_object, Hv, Hr.
    destruct (get_key "props" fields) as [p|]; [|reflexivity].
    now rewrite Hp.
  - intros texts. cbn [processContent].
    rewrite (collect_strings processContent VStr) by reflexivity.
    cbn [cbind]. now rewrite join_empty_concat.
  - intros texts. cbn [processContent].
    rewrite (collect_strings processContent raw_node) by reflexivity.
    cbn [cbind]. now rewrite join_empty_concat.
Qed.

Lemma processContent_by_shape_witness :
  get_key "value" [("raw", VStr "r"); ("value", VNum "42")] = Some (VNum "42")
  /\ processContent (VObj [("raw", VStr "r"); ("value", VNum "42")])
     = String_ (VNum "42").
Proof.
  split; [reflexivity|].
  apply (proj1 (proj2 (proj2 processContent_by_shape))). reflexivity.
Defined.

(** C9: the empty-string normalization of an absent value is that of the
    final fallback only. An object whose [value] key is present yields
    [String] of that field: the text [undefined] when it holds
    [undefined], the text [null] when it holds [null]; and it does so
    whether or not the object also has a [raw] key. *)
Theorem value_field_is_stringified fields x :
  get_key "value" fields = Some x ->
  processContent (VObj fields) = String_ x
  /\ (x = VUndefined -> processContent (VObj fields) = Normal "undefined")
  /\ (x = VNull -> processContent (VObj fields) = Normal "null")
  /\ (forall r, get_key "raw" fields = Some r ->
                processContent (VObj fields) = String_ x)
  /\ processContent VUndefined = Normal ""
  /\ processContent VNull = Normal "".
Proof.
  intros Hv.
  assert (H : processContent (VObj fields) = String_ x)
    by now rewrite processContent_object, Hv.
  repeat split; try assumption; try reflexivity.
  - intros ->. exact H.
  - intros ->. exact H.
  - intros r _. exact H.
Qed.

Lemma value_field_is_stringified_witness :
  get_key "value" [("raw", VStr "text"); ("value", VUndefined)] = Some VUndefined
  /\ processContent (VObj [("raw", VStr "text"); ("value", VUndefined)])
     = Normal "undefined".
Proof.
  split; [reflexivity|].
  apply (value_field_is_stringified
           [("raw", VStr "text"); ("value", VUndefined)] VUndefined);
    reflexivity.
Defined.

(** *** The displayed file name *)





(** *** The language selector *)

(** The selector is used with the dropdown open, and a selection closes
    the dropdown it was made from. *)
Lemma language_change_closes_menu :
  let opened :=
    toggleLanguages
      (handleEditorDidMount
         (MonacoEditor {| content := "x = 1"; language := Some "python";
                          readOnly := Some true; className := None;
                          filename := Some "untitled.python" |})) in
  showLanguages opened = true
  /\ showLanguages (handleLanguageChange "rust" opened) = false
  /\ ~ same_but_language opened (handleLanguageChange "rust" opened).
Proof.
  cbv zeta. repeat split.
  intros (_ & _ & _ & _ & Hmenu & _). discriminate Hmenu.
Qed.

Lemma handleLanguageChange_frame lang w :
  same_but_language_and_menu w (handleLanguageChange lang w).
Proof.
  unfold same_but_language_and_menu, shown_text, handleLanguageChange.
  cbn. repeat split. destruct (w_editor w) as [[model|]|]; reflexivity.
Qed.

Lemma same_but_language_and_menu_trans w1 w2 w3 :
  same_but_language_and_menu w1 w2 ->
  same_but_language_and_menu w2 w3 ->
  same_but_language_and_menu w1 w3.
Proof.
  unfold same_but_language_and_menu.
  intros (A1 & A2 & A3 & A4 & A5) (B1 & B2 & B3 & B4 & B5).
  repeat split; congruence.
Qed.

Lemma select_all_frame langs : forall w,
  same_but_language_and_menu w (select_all langs w).
Proof.
  induction langs as [|lang langs IH]; intros w.
  - repeat split.
  - cbn [select_all fold_left].
    eapply same_but_language_and_menu_trans; [apply handleLanguageChange_frame|].
    apply IH.
Qed.

(** C7: a selection in the language dropdown sets the language label and
    the highlighting mode of the editor's model to the selected language
    (and closes the dropdown it was made from); after any sequence of
    selections the text content handed to the editor, the text of the
    editor's model, the file name, the height and the read-only flag are
    what they were. *)
Theorem language_change_keeps_text (langs : list string) (w : widget) (lang : string) :
  same_but_language_and_menu w (select_all langs w)
  /\ w_content (select_all langs w) = w_content w
  /\ shown_text (select_all langs w) = shown_text w
  /\ currentLanguage (handleLanguageChange lang w) = lang
  /\ showLanguages (handleLanguageChange lang w) = false
  /\ shown_mode (handleLanguageChange lang w) =
     match shown_mode w with
     | Some _ => Some lang
     | None => None
     end.
Proof.
  pose proof (select_all_frame langs w) as Hframe.
  split; [exact Hframe|].
  destruct Hframe as (Hc & _ & _ & _ & Ht).
  repeat split; try assumption.
  unfold shown_mode, handleLanguageChange. cbn.
  destruct (w_editor w) as [[model|]|]; reflexivity.
Qed.

End RenderFacts.

(** ** The archival script *)

Module ArchiveFacts.
Import Script ScriptFacts Archive.
Local Open Scope script_scope.

(** *** Validation of usernames *)

Lemma all_word_foreign name c :
  In c (list_ascii_of_string name) ->
  Render.is_word_char c = false ->
  all_word name = false.
Proof.
  induction name as [|a name IH]; cbn [list_ascii_of_string In all_word].
  - intros [].
  - intros [->|Hin] Hc.
    + now rewrite Hc.
    + rewrite (IH Hin Hc). apply andb_false_r.
Qed.

(** A username with a character outside letters, digits and underscore
    fails the pattern. *)
Lemma foreign_char_invalid name c :
  In c (list_ascii_of_string name) ->
  Render.is_word_char c = false ->
  valid_username name = false.
Proof.
  intros Hin Hc. destruct name as [|a name]; [reflexivity|].
  cbn [valid_username]. eapply all_word_foreign; eassumption.
Qed.

(** The loop body on a username that fails the pattern: one line on the
    error stream and the end of the process, with no database call. *)
Lemma archive_user_invalid w name s :
  valid_username name = false ->
  archive_user w name s = Result [ConsoleError InvalidUsernameFormat] s (Exited 1).
Proof.
  intros H. unfold archive_user. rewrite H. cbn [negb when].
  apply bind_exited. reflexivity.
Qed.

(** *** The run, cut at a point of the loop *)

Lemma finish_app w pre rest s t s' :
  archive_all w pre s = Result t s' (Returned tt) ->
  finish w (pre ++ rest) s = prepend t (finish w rest s').
Proof.
  intros Hpre. unfold finish.
  apply try_finally_prepend.
  set (k := fun _ : unit => console_log ArchivingCompleted).
  set (h := fun error => console_error (ErrorArchiving error)).
  transitivity
    (try_catch (bind (for_of pre (archive_user w))
                     (fun _ => bind (for_of rest (archive_user w)) k)) h s).
  - apply try_catch_ext.
    rewrite (bind_ext_l _ _ _ _ (for_of_app pre rest (archive_user w) s)).
    apply bind_assoc.
  - exact (try_catch_bind_returned
             (for_of pre (archive_user w))
             (fun _ => bind (for_of rest (archive_user w)) k) h s t s' tt Hpre).
Qed.

Lemma finish_cons w name rest s t s' :
  archive_user w name s = Result t s' (Returned tt) ->
  finish w (name :: rest) s = prepend t (finish w rest s').
Proof.
  intros Hname. apply (finish_app w [name] rest).
  unfold archive_all. cbn [for_of].
  rewrite (bind_returned _ _ _ _ _ _ Hname).
  unfold prepend, ret; cbn. now rewrite app_nil_r.
Qed.

Lemma finish_cons_exited w name rest s t s' code :
  archive_user w name s = Result t s' (Exited code) ->
  finish w (name :: rest) s = Result t s' (Exited code).
Proof.
  intros Hname. unfold finish.
  apply try_finally_exited, try_catch_exited.
  cbn [for_of]. apply bind_exited. now apply bind_exited.
Qed.

(** A run that is given usernames and connects goes into the loop. *)
Lemma run_enters_loop w convs :
  fails w Connect = false ->
  usernamesToArchive w <> [] ->
  run w convs =
  prepend [Db Connect; ConsoleLog ConnectedToMongoDB]
          (finish w (usernamesToArchive w) (initial convs)).
Proof.
  intros Hconnect Hargs. unfold run, archiveOldConversations, finish.
  apply try_finally_prepend.
  assert (Hfront :
    forall k : unit -> Run unit,
      (call w Connect >> console_log ConnectedToMongoDB >>
       when (Nat.eqb (length (usernamesToArchive w)) 0)
            (console_error PleaseProvideUsername >> exit 1) >> k tt)
        (initial convs)
      = prepend [Db Connect; ConsoleLog ConnectedToMongoDB] (k tt (initial convs))).
  { intros k. unfold call, console_log, when, bind, emit, ret, prepend.
    rewrite Hconnect.
    destruct (usernamesToArchive w) as [|name rest]; [contradiction|].
    cbn. reflexivity. }
  apply try_catch_prepend.
  exact (Hfront (fun _ => for_of (usernamesToArchive w) (archive_user w)
                          >> console_log ArchivingCompleted)).
Qed.

(** The run when the loop comes to a username that fails the pattern. *)
Lemma run_reaches_invalid w convs pre bad post t1 s1 :
  fails w Connect = false ->
  usernamesToArchive w = pre ++ bad :: post ->
  archive_all w pre (initial convs) = Result t1 s1 (Returned tt) ->
  valid_username bad = false ->
  run w convs =
  Result ([Db Connect; ConsoleLog ConnectedToMongoDB] ++ t1
            ++ [ConsoleError InvalidUsernameFormat])
         s1 (Exited 1).
Proof.
  intros Hconnect Hargs Hpre Hbad.
  rewrite run_enters_loop; [|assumption|rewrite Hargs; now destruct pre].
  rewrite Hargs, (finish_app _ _ _ _ _ _ Hpre).
  rewrite (finish_cons_exited _ _ _ _ _ _ _ (archive_user_invalid w bad s1 Hbad)).
  reflexivity.
Qed.

(** *** What a run leaves alone *)

Lemma same_conversations_refl s : same_conversations s s.
Proof. reflexivity. Qed.

Lemma same_conversations_trans s1 s2 s3 :
  same_conversations s1 s2 -> same_conversations s2 s3 -> same_conversations s1 s3.
Proof. unfold same_conversations. congruence. Qed.

Lemma archived_stay_refl s : archived_stay s s.
Proof. intros id c Hc _. exact Hc. Qed.

Lemma archived_stay_trans s1 s2 s3 :
  archived_stay s1 s2 -> archived_stay s2 s3 -> archived_stay s1 s3.
Proof. intros H12 H23 id c Hc Ha. apply H23; [|assumption]. now apply H12. Qed.

Lemma keeps_call R P w c :
  (forall s, R s s) -> P (Db c) -> keeps R P (call w c).
Proof.
  intros HR HP s. unfold call, bind, emit, throw, ret; cbn.
  destruct (fails w c); cbn; (split; [apply HR|now repeat constructor]).
Qed.

(** The steps of the script that read. *)
Section Reads.
Context (R : store -> store -> Prop) (P : event -> Prop).
Context (R_refl : forall s, R s s).
Context (R_trans : forall s1 s2 s3, R s1 s2 -> R s2 s3 -> R s1 s3).
Context (R_tick : forall s, R s (tick s)).
Context (w : world).

Lemma keeps_findOne name : P (Db (FindUser name)) -> keeps R P (findOne w name).
Proof.
  intros HP. unfold findOne.
  apply keeps_bind; [exact R_trans|now apply keeps_call|intros _].
  now apply keeps_ret.
Qed.

Lemma keeps_new_Date : keeps R P (new_Date w).
Proof. intros s. split; [apply R_tick|constructor]. Qed.

Lemma keeps_find userId before :
  P (Db (FindConversations userId before)) -> keeps R P (find w userId before).
Proof.
  intros HP. unfold find.
  apply keeps_bind; [exact R_trans|now apply keeps_call|intros _].
  apply keeps_bind; [exact R_trans|now apply keeps_get|intros s].
  now apply keeps_ret.
Qed.

Lemma keeps_console_log m : P (ConsoleLog m) -> keeps R P (console_log m).
Proof. intros HP. now apply keeps_emit. Qed.

Lemma keeps_console_error m : P (ConsoleError m) -> keeps R P (console_error m).
Proof. intros HP. now apply keeps_emit. Qed.

(** The loop body, given what its writing branch keeps. *)
Lemma keeps_archive_user name :
  (forall e, is_mutation e = false -> P e) ->
  (DRY_RUN w = false -> forall ids, keeps R P (updateMany w ids)) ->
  keeps R P (archive_user w name).
Proof.
  intros HP Hwrite. unfold archive_user.
  apply keeps_bind; [exact R_trans| |intros _].
  { apply keeps_when; [exact R_refl|].
    apply keeps_bind; [exact R_trans| |intros _].
    - now apply keeps_console_error, HP.
    - now apply keeps_exit. }
  apply keeps_bind; [exact R_trans|now apply keeps_findOne, HP|intros [u|]].
  2:{ apply keeps_bind; [exact R_trans| |intros _].
      - now apply keeps_console_error, HP.
      - now apply keeps_exit. }
  apply keeps_bind; [exact R_trans|now apply keeps_console_log, HP|intros _].
  apply keeps_bind; [exact R_trans|apply keeps_new_Date|intros now].
  apply keeps_bind; [exact R_trans|now apply keeps_find, HP|intros old].
  destruct (Nat.eqb (length old) 0); [now apply keeps_console_log, HP|].
  destruct (DRY_RUN w) eqn:Hdry; [now apply keeps_console_log, HP|].
  apply keeps_bind; [exact R_trans|now apply keeps_console_log, HP|intros _].
  apply keeps_bind; [exact R_trans|now apply Hwrite|intros _].
  now apply keeps_console_log, HP.
Qed.

(** The whole function, given what its loop body keeps. *)
Lemma keeps_finish rest :
  (forall e, is_mutation e = false -> P e) ->
  (forall name, keeps R P (archive_user w name)) ->
  keeps R P (finish w rest).
Proof.
  intros HP Hbody. unfold finish.
  apply keeps_try_finally; [exact R_trans| |].
  - apply keeps_try_catch; [exact R_trans| |intros e].
    + apply keeps_bind; [exact R_trans| |intros _].
      * now apply keeps_for_of.
      * now apply keeps_console_log, HP.
    + now apply keeps_console_error, HP.
  - apply keeps_bind; [exact R_trans| |intros _].
    + now apply keeps_call, HP.
    + now apply keeps_console_log, HP.
Qed.

Lemma keeps_archiveOldConversations :
  (forall e, is_mutation e = false -> P e) ->
  (forall name, keeps R P (archive_user w name)) ->
  keeps R P (archiveOldConversations w).
Proof.
  intros HP Hbody. unfold archiveOldConversations.
  apply keeps_try_finally; [exact R_trans| |].
  - apply keeps_try_catch; [exact R_trans| |intros e].
    + apply keeps_bind; [exact R_trans|now apply keeps_call, HP|intros _].
      apply keeps_bind; [exact R_trans|now apply keeps_console_log, HP|intros _].
      apply keeps_bind; [exact R_trans| |intros _].
      { apply keeps_when; [exact R_refl|].
        apply keeps_bind; [exact R_trans| |intros _].
        - now apply keeps_console_error, HP.
        - now apply keeps_exit. }
      apply keeps_bind; [exact R_trans| |intros _].
      * now apply keeps_for_of.
      * now apply keeps_console_log, HP.
    + now apply keeps_console_error, HP.
  - apply keeps_bind; [exact R_trans| |intros _].
    + now apply keeps_call, HP.
    + now apply keeps_console_log, HP.
Qed.
End Reads.

(** In dry-run mode the loop body reads and reports. *)
Lemma archive_user_dry w name :
  DRY_RUN w = true ->
  keeps same_conversations no_mutation (archive_user w name).
Proof.
  intros Hdry. apply keeps_archive_user.
  - apply same_conversations_refl.
  - apply same_conversations_trans.
  - reflexivity.
  - auto.
  - congruence.
Qed.

Lemma archiveOldConversations_dry w :
  DRY_RUN w = true ->
  keeps same_conversations no_mutation (archiveOldConversations w).
Proof.
  intros Hdry. apply keeps_archiveOldConversations.
  - apply same_conversations_refl.
  - apply same_conversations_trans.
  - auto.
  - intros name. now apply archive_user_dry.
Qed.


(** *** Claims on validation and on the dry-run flag *)

(** C2, as stated, fails: the connection is opened before any username is
    looked at, and a username is validated when the loop comes to it. On
    the arguments [alice bad-name] the script connects, looks alice up and
    archives her old conversation, and only then rejects [bad-name]. *)
Lemma invalid_username_after_valid_one :
  let w := example_world ["alice"; "bad-name"] in
  let r := run w example_conversations in
  In "-"%char (list_ascii_of_string "bad-name")
  /\ Render.is_word_char "-"%char = false
  /\ trace r =
     [ Db Connect; ConsoleLog ConnectedToMongoDB;
       Db (FindUser "alice"); ConsoleLog (ProcessingConversations "alice" "u1");
       Db (FindConversations "u1" (day 70));
       ConsoleLog (Archiving 1 "alice"); Db (UpdateMany ["c1"]);
       ConsoleLog (Archived 1 "alice");
       ConsoleError InvalidUsernameFormat ]
  /\ ending r = Exited 1
  /\ example_conversations !! "c1"
     = Some {| user := "u1"; updatedAt := Some (day 10); isArchived := None |}
  /\ conversations (state r) !! "c1"
     = Some {| user := "u1"; updatedAt := Some (day 10); isArchived := Some true |}.
Proof. cbv zeta. repeat split; vm_compute; tauto. Qed.

(** C2, amended: the script opens the database connection first and
    validates each username when the loop reaches it. When the loop
    reaches a username with a character outside letters, digits and
    underscore (the usernames before it having been processed), the script
    reports the validation failure and ends the process with status 1,
    with no lookup and no mutation for that username or any later one. *)
Theorem invalid_username_stops_run w convs pre bad post t1 s1 c :
  fails w Connect = false ->
  usernamesToArchive w = pre ++ bad :: post ->
  archive_all w pre (initial convs) = Result t1 s1 (Returned tt) ->
  In c (list_ascii_of_string bad) ->
  Render.is_word_char c = false ->
  archive_user w bad s1 = Result [ConsoleError InvalidUsernameFormat] s1 (Exited 1)
  /\ run w convs =
     Result ([Db Connect; ConsoleLog ConnectedToMongoDB] ++ t1
               ++ [ConsoleError InvalidUsernameFormat])
            s1 (Exited 1).
Proof.
  intros Hconnect Hargs Hpre Hin Hc.
  pose proof (foreign_char_invalid bad c Hin Hc) as Hbad.
  split; [now apply archive_user_invalid|].
  eapply run_reaches_invalid; eassumption.
Qed.

Lemma invalid_username_stops_run_witness :
  let w := example_world ["bob"; "bad-name"; "alice"] in
  run w example_conversations =
  Result [ Db Connect; ConsoleLog ConnectedToMongoDB;
           Db (FindUser "bob"); ConsoleLog (ProcessingConversations "bob" "u2");
           Db (FindConversations "u2" (day 70));
           ConsoleLog (Archiving 1 "bob"); Db (UpdateMany ["c4"]);
           ConsoleLog (Archived 1 "bob");
           ConsoleError InvalidUsernameFormat ]
         (flagged ["c4"] (tick (initial example_conversations)))
         (Exited 1).
Proof.
  cbv zeta.
  refine (proj2 (invalid_username_stops_run
                   (example_world ["bob"; "bad-name"; "alice"])
                   example_conversations ["bob"] "bad-name" ["alice"]
                   [ Db (FindUser "bob");
                     ConsoleLog (ProcessingConversations "bob" "u2");
                     Db (FindConversations "u2" (day 70));
                     ConsoleLog (Archiving 1 "bob"); Db (UpdateMany ["c4"]);
                     ConsoleLog (Archived 1 "bob") ]
                   (flagged ["c4"] (tick (initial example_conversations)))
                   "-"%char _ _ _ _ _)).
  - reflexivity.
  - reflexivity.
  - vm_compute. reflexivity.
  - vm_compute. tauto.
  - reflexivity.
Defined.

Lemma for_of_never_returns w culprit names :
  In culprit names ->
  (forall s, exists t s' code, archive_user w culprit s = Result t s' (Exited code)) ->
  forall s, ending (archive_all w names s) <> Returned tt.
Proof.
  intros Hin Hexit. unfold archive_all.
  induction names as [|name names IH]; [destruct Hin|]. intros s.
  cbn [for_of]. unfold bind.
  destruct Hin as [->|Hin].
  - destruct (Hexit s) as (t & s' & code & ->). cbn. discriminate.
  - destruct (ending (archive_user w name s)); cbn; try discriminate.
    now apply IH.
Qed.

(** C8: the [--dry-run] flag is looked for in the whole argument vector
    and stays among the usernames. It fails the username pattern, so the
    loop body ends the process with a validation error on it: a run whose
    arguments include the flag exits with status 1 on that error once the
    loop reaches the flag, and its loop never runs to completion. *)
Theorem dry_run_flag_is_rejected_as_username w convs pre post :
  usernamesToArchive w = pre ++ "--dry-run" :: post ->
  DRY_RUN w = true
  /\ In "--dry-run" (usernamesToArchive w)
  /\ valid_username "--dry-run" = false
  /\ (forall s, archive_user w "--dry-run" s
                = Result [ConsoleError InvalidUsernameFormat] s (Exited 1))
  /\ (forall t1 s1,
        fails w Connect = false ->
        archive_all w pre (initial convs) = Result t1 s1 (Returned tt) ->
        run w convs =
        Result ([Db Connect; ConsoleLog ConnectedToMongoDB] ++ t1
                  ++ [ConsoleError InvalidUsernameFormat])
               s1 (Exited 1))
  /\ (forall s, ending (archive_all w (usernamesToArchive w) s) <> Returned tt).
Proof.
  intros Hargs.
  assert (Hin : In "--dry-run" (usernamesToArchive w))
    by (rewrite Hargs; apply in_or_app; right; now left).
  assert (Hbody : forall s, archive_user w "--dry-run" s
                            = Result [ConsoleError InvalidUsernameFormat] s (Exited 1))
    by (intros s; now apply archive_user_invalid).
  repeat split; try assumption.
  - unfold DRY_RUN. apply existsb_exists. exists "--dry-run". split; [|reflexivity].
    unfold usernamesToArchive in Hin.
    rewrite <- (firstn_skipn 2 (argv w)). apply in_or_app. now right.
  - intros t1 s1 Hconnect Hpre.
    now apply (run_reaches_invalid w convs pre "--dry-run" post).
  - apply (for_of_never_returns w "--dry-run"); [assumption|].
    intros s. rewrite Hbody. eauto.
Qed.

Lemma dry_run_flag_is_rejected_as_username_witness :
  let w := example_world ["alice"; "--dry-run"] in
  usernamesToArchive w = ["alice"] ++ "--dry-run" :: []
  /\ run w example_conversations =
     Result [ Db Connect; ConsoleLog ConnectedToMongoDB;
              Db (FindUser "alice");
              ConsoleLog (ProcessingConversations "alice" "u1");
              Db (FindConversations "u1" (day 70));
              ConsoleLog (DryRunWouldArchive 1 "alice");
              ConsoleError InvalidUsernameFormat ]
            (tick (initial example_conversations))
            (Exited 1).
Proof.
  cbv zeta. split; [reflexivity|].
  refine (proj1 (proj2 (proj2 (proj2 (proj2
            (dry_run_flag_is_rejected_as_username
               (example_world ["alice"; "--dry-run"])
               example_conversations ["alice"] [] _)))))
            [ Db (FindUser "alice");
              ConsoleLog (ProcessingConversations "alice" "u1");
              Db (FindConversations "u1" (day 70));
              ConsoleLog (DryRunWouldArchive 1 "alice") ]
            (tick (initial example_conversations)) _ _).
  - reflexivity.
  - reflexivity.
  - vm_compute. reflexivity.
Defined.

(** C4: in dry-run mode, whatever the arguments and the database, the run
    leaves the conversations collection as it found it and makes no
    updating call on the database. *)
Theorem dry_run_changes_nothing w convs :
  DRY_RUN w = true ->
  conversations (state (run w convs)) = convs
  /\ Forall (fun e => is_mutation e = false) (trace (run w convs)).
Proof.
  intros Hdry. exact (archiveOldConversations_dry w Hdry (initial convs)).
Qed.

Lemma dry_run_changes_nothing_witness :
  let w := example_world ["alice"; "--dry-run"] in
  let r := run w example_conversations in
  DRY_RUN w = true
  /\ In (ConsoleLog (DryRunWouldArchive 1 "alice")) (trace r)
  /\ selected_ids "u1" 6048000000 example_conversations = ["c1"]
  /\ conversations (state r) = example_conversations
  /\ Forall (fun e => is_mutation e = false) (trace r).
Proof.
  cbv zeta. split; [reflexivity|]. split; [vm_compute; tauto|].
  split; [reflexivity|].
  apply (dry_run_changes_nothing (example_world ["alice"; "--dry-run"])
                                 example_conversations).
  reflexivity.
Defined.

(** *** The bulk update of a real run *)

Lemma call_run w c s :
  fails w c = false -> call w c s = Result [Db c] s (Returned tt).
Proof. intros H. unfold call, bind, emit, ret. rewrite H. reflexivity. Qed.

Lemma findOne_run w name s :
  fails w (FindUser name) = false ->
  findOne w name s =
  Result [Db (FindUser name)] s
         (Returned (List.find (fun u => String.eqb (username u) name) (users w))).
Proof.
  intros H. unfold findOne. rewrite (bind_returned _ _ _ _ _ _ (call_run _ _ _ H)).
  reflexivity.
Qed.

Lemma new_Date_run w s :
  new_Date w s = Result [] (tick s) (Returned (clock w (clock_reads s))).
Proof. reflexivity. Qed.

Lemma find_run w userId before s :
  fails w (FindConversations userId before) = false ->
  find w userId before s =
  Result [Db (FindConversations userId before)] s
         (Returned (map_to_list
                      (filter (fun kc => selected userId before kc.2 = true)
                              (conversations s)))).
Proof.
  intros H. unfold find. rewrite (bind_returned _ _ _ _ _ _ (call_run _ _ _ H)).
  reflexivity.
Qed.

Lemma updateMany_run w ids s :
  fails w (UpdateMany ids) = false ->
  updateMany w ids s = Result [Db (UpdateMany ids)] (flagged ids s) (Returned tt).
Proof.
  intros H. unfold updateMany.
  rewrite (bind_returned _ _ _ _ _ _ (call_run _ _ _ H)).
  reflexivity.
Qed.

(** The loop body on a username that is valid and found, in a real run
    whose database calls succeed. *)
Lemma archive_user_real w name u s :
  DRY_RUN w = false ->
  valid_username name = true ->
  List.find (fun u => String.eqb (username u) name) (users w) = Some u ->
  fails w (FindUser name) = false ->
  fails w (FindConversations (_id u) (dateThreshold w (clock w (clock_reads s)))) = false ->
  (forall ids, fails w (UpdateMany ids) = false) ->
  let before := dateThreshold w (clock w (clock_reads s)) in
  let ids := selected_ids (_id u) before (conversations s) in
  let count := length ids in
  archive_user w name s =
  if Nat.eqb count 0 then
    Result [ Db (FindUser name); ConsoleLog (ProcessingConversations name (_id u));
             Db (FindConversations (_id u) before);
             ConsoleLog (NoConversationsToArchive name) ]
           (tick s) (Returned tt)
  else
    Result [ Db (FindUser name); ConsoleLog (ProcessingConversations name (_id u));
             Db (FindConversations (_id u) before);
             ConsoleLog (Archiving count name); Db (UpdateMany ids);
             ConsoleLog (Archived count name) ]
           (flagged ids (tick s)) (Returned tt).
Proof.
  intros Hdry Hvalid Hfound Huser Hfind Hupdate before ids count.
  unfold archive_user. rewrite Hvalid. cbn [negb when]. rewrite ret_bind.
  rewrite (bind_returned _ _ _ _ _ _ (findOne_run _ _ _ Huser)), Hfound.
  unfold console_log at 1.
  rewrite (bind_returned _ _ s [ConsoleLog (ProcessingConversations name (_id u))]
                         s tt) by reflexivity.
  rewrite (bind_returned _ _ _ _ _ _ (new_Date_run w s)).
  assert (Hfind' : fails w (FindConversations (_id u) before) = false) by exact Hfind.
  rewrite (bind_returned _ _ _ _ _ _ (find_run w (_id u) before (tick s) Hfind')).
  cbn [tick conversations]. fold (selected_ids (_id u) before (conversations s)).
  fold ids. rewrite <- (length_map fst). fold (selected_ids (_id u) before (conversations s)).
  fold ids. fold count. rewrite Hdry.
  destruct (Nat.eqb count 0); [reflexivity|].
  unfold console_log.
  rewrite (bind_returned _ _ (tick s) [ConsoleLog (Archiving count name)]
                         (tick s) tt) by reflexivity.
  rewrite (bind_returned _ _ _ _ _ _ (updateMany_run w ids (tick s) (Hupdate ids))).
  reflexivity.
Qed.

Lemma elem_of_selected_ids userId before (convs : gmap string conversation) id :
  id ∈ selected_ids userId before convs <->
  exists c, convs !! id = Some c /\ selected userId before c = true.
Proof.
  unfold selected_ids. rewrite list_elem_of_In, in_map_iff. split.
  - intros ([id' c] & <- & Hin). exists c.
    apply list_elem_of_In, elem_of_map_to_list, map_lookup_filter_Some in Hin.
    exact Hin.
  - intros (c & Hc & Hsel). exists (id, c). split; [reflexivity|].
    apply list_elem_of_In, elem_of_map_to_list, map_lookup_filter_Some.
    now split.
Qed.

(** The query, read as its three conditions. *)
Lemma selected_spec userId before c :
  selected userId before c = true <->
  user c = userId
  /\ (exists t, updatedAt c = Some t /\ (t < before)%Z)
  /\ isArchived c <> Some true.
Proof.
  unfold selected. rewrite !andb_true_iff, String.eqb_eq, negb_true_iff,
    bool_decide_eq_false.
  split.
  - intros [[Hu Ht] Ha]. repeat split; try assumption.
    destruct (updatedAt c) as [t|]; [|discriminate].
    exists t. split; [reflexivity|]. now apply Z.ltb_lt.
  - intros (Hu & (t & Ht & Hlt) & Ha). repeat split; try assumption.
    rewrite Ht. now apply Z.ltb_lt.
Qed.

Lemma set_isArchived_archived c : isArchived c = Some true -> set_isArchived c = c.
Proof. destruct c as [u t a]; cbn. now intros ->. Qed.

Lemma flagged_lookup ids s id :
  conversations (flagged ids s) !! id =
  (fun c => if bool_decide (id ∈ ids) then set_isArchived c else c)
    <$> conversations s !! id.
Proof.
  unfold flagged; cbn [conversations]. rewrite map_lookup_imap.
  now destruct (conversations s !! id).
Qed.

Lemma flagged_selected_lookup userId before s s' id :
  conversations s' = conversations s ->
  conversations (flagged (selected_ids userId before (conversations s)) s') !! id =
  flag_if_selected userId before <$> conversations s !! id.
Proof.
  intros Hs. rewrite flagged_lookup, Hs.
  destruct (conversations s !! id) as [c|] eqn:Hc; [|reflexivity].
  cbn. f_equal. unfold flag_if_selected.
  destruct (selected userId before c) eqn:Hsel.
  - rewrite bool_decide_eq_true_2; [reflexivity|].
    apply elem_of_selected_ids. eauto.
  - rewrite bool_decide_eq_false_2; [reflexivity|].
    intros (c' & Hc' & Hsel')%elem_of_selected_ids. congruence.
Qed.

Lemma archived_stay_flagged ids s : archived_stay s (flagged ids s).
Proof.
  intros id c Hc Ha. rewrite flagged_lookup, Hc. cbn.
  rewrite (set_isArchived_archived c Ha). now destruct (bool_decide _).
Qed.

Lemma keeps_updateMany_archived w ids :
  keeps archived_stay (fun _ => True) (updateMany w ids).
Proof.
  intros s. unfold updateMany, call, bind, emit, throw, ret, get, put.
  destruct (fails w (UpdateMany ids)); cbn.
  - split; [apply archived_stay_refl|now repeat constructor].
  - split; [apply archived_stay_flagged|now repeat constructor].
Qed.

(** Nothing the script does touches a conversation that is archived. *)
Lemma finish_archived_stay w rest :
  keeps archived_stay (fun _ => True) (finish w rest).
Proof.
  apply keeps_finish; try (intros; exact I).
  - apply archived_stay_refl.
  - apply archived_stay_trans.
  - intros name. apply keeps_archive_user; try (intros; exact I).
    + apply archived_stay_refl.
    + apply archived_stay_trans.
    + intros s id c Hc _. exact Hc.
    + intros _ ids. apply keeps_updateMany_archived.
Qed.

(** Thirty days back on the local calendar: the instant at which the
    local clock showed what it shows now, 2 592 000 000 milliseconds of
    local time earlier. *)
Lemma dateThreshold_spec w now :
  dateThreshold w now =
  (now + LocalTZA w now true - 2592000000
   - LocalTZA w (now + LocalTZA w now true - 2592000000) false)%Z.
Proof.
  unfold dateThreshold, UTC, LocalTime, MakeDate, Day, TimeWithinDay,
    DAYS_THRESHOLD, ms_per_day.
  set (t := (now + LocalTZA w now true)%Z).
  pose proof (Z.div_mod t 86400000 ltac:(lia)) as Ht.
  replace ((t / 86400000 - 30) * 86400000 + t mod 86400000)%Z
    with (t - 2592000000)%Z by lia.
  reflexivity.
Qed.

(** Where the clocks were put forward by an hour inside the window, the
    threshold is an hour less than thirty times 24 hours back. *)
Lemma dateThreshold_across_clock_change :
  dateThreshold (example_world_with_summer_time []) (day 100)
  = (day 100 - 30 * 86400000 + 3600000)%Z.
Proof. reflexivity. Qed.

(** C3: in a real run, for a user the loop reaches (valid username, user
    found, database calls succeeding), the query asks for the user's
    conversations last updated strictly before now minus thirty days:
    before the instant at which the local clock showed what it shows at
    the reading of the clock, 2 592 000 000 milliseconds of local time
    earlier, which is the reading less 2 592 000 000 milliseconds when the
    offset of local time is the same at both ends. The conversations
    selected are exactly those that belong to the user, were last updated
    strictly before that instant and are not already archived; the loop
    body makes one [updateMany] call on exactly their [_id]s (none when
    there is nothing to archive); each of them has [isArchived] set to
    true when the run ends; and every conversation that is not selected,
    being inside the window, archived already or of another user, is
    after the update what it was. *)
Theorem real_run_flags_old_conversations w convs pre name post t1 s1 u :
  DRY_RUN w = false ->
  fails w Connect = false ->
  usernamesToArchive w = pre ++ name :: post ->
  archive_all w pre (initial convs) = Result t1 s1 (Returned tt) ->
  valid_username name = true ->
  List.find (fun u => String.eqb (username u) name) (users w) = Some u ->
  fails w (FindUser name) = false ->
  (forall before, fails w (FindConversations (_id u) before) = false) ->
  (forall ids, fails w (UpdateMany ids) = false) ->
  let now := clock w (clock_reads s1) in
  let local := (now + LocalTZA w now true)%Z in
  let before :=
    (local - 2592000000 - LocalTZA w (local - 2592000000) false)%Z in
  let r := archive_user w name s1 in
  let ids := selected_ids (_id u) before (conversations s1) in
  ending r = Returned tt
  /\ In (Db (FindConversations (_id u) before)) (trace r)
  /\ (LocalTZA w (local - 2592000000) false = LocalTZA w now true ->
      before = (now - 2592000000)%Z)
  /\ (forall id,
        id ∈ ids <->
        exists c, conversations s1 !! id = Some c
                  /\ user c = _id u
                  /\ (exists t, updatedAt c = Some t /\ (t < before)%Z)
                  /\ isArchived c <> Some true)
  /\ List.filter is_mutation (trace r) =
     (if Nat.eqb (length ids) 0 then [] else [Db (UpdateMany ids)])
  /\ (forall id c,
        conversations s1 !! id = Some c ->
        selected (_id u) before c = true ->
        isArchived <$> conversations (state (run w convs)) !! id
        = Some (Some true))
  /\ (forall id c,
        conversations s1 !! id = Some c ->
        selected (_id u) before c = false ->
        conversations (state r) !! id = Some c).
Proof.
  intros Hdry Hconnect Hargs Hpre Hvalid Hfound Huser Hfind Hupdate
         now local before r ids.
  assert (Hbefore : dateThreshold w now = before) by apply dateThreshold_spec.
  pose proof (archive_user_real w name u s1 Hdry Hvalid Hfound Huser
                                (Hfind _) Hupdate) as Hr.
  cbv zeta in Hr. fold now in Hr. rewrite Hbefore in Hr.
  fold ids in Hr. fold r in Hr.
  assert (Hend : ending r = Returned tt).
  { rewrite Hr. now destruct (Nat.eqb (length ids) 0). }
  assert (Hlookup : forall id,
             conversations (state r) !! id =
             flag_if_selected (_id u) before <$> conversations s1 !! id).
  { intros id. rewrite Hr.
    destruct (Nat.eqb (length ids) 0) eqn:Hcount; cbn [state].
    - apply Nat.eqb_eq, length_zero_iff_nil in Hcount.
      cbn [tick conversations].
      destruct (conversations s1 !! id) as [c|] eqn:Hc; [|reflexivity].
      cbn. f_equal. unfold flag_if_selected.
      destruct (selected (_id u) before c) eqn:Hsel; [|reflexivity].
      assert (Hin : id ∈ ids) by (apply elem_of_selected_ids; eauto).
      rewrite Hcount in Hin. now apply elem_of_nil in Hin.
    - now apply flagged_selected_lookup. }
  split; [exact Hend|]. split.
  { rewrite Hr. destruct (Nat.eqb (length ids) 0); cbn [trace In]; tauto. }
  split; [intros Hsame; unfold before; lia|]. split.
  { intros id. unfold ids. rewrite elem_of_selected_ids.
    split; intros (c & Hc & Hsel); exists c; (split; [exact Hc|]);
      now apply selected_spec. }
  split.
  { rewrite Hr. now destruct (Nat.eqb (length ids) 0). }
  split.
  - intros id c Hc Hsel.
    assert (Hr' : archive_user w name s1 = Result (trace r) (state r) (Returned tt)).
    { rewrite <- Hend. apply result_eta. }
    rewrite run_enters_loop; [|assumption|rewrite Hargs; now destruct pre].
    rewrite Hargs, (finish_app _ _ _ _ _ _ Hpre), (finish_cons _ _ _ _ _ _ Hr').
    cbn [prepend state].
    rewrite (proj1 (finish_archived_stay w post (state r)) id (set_isArchived c));
      [reflexivity| |reflexivity].
    rewrite Hlookup, Hc. cbn. unfold flag_if_selected. now rewrite Hsel.
  - intros id c Hc Hsel. rewrite Hlookup, Hc. cbn.
    unfold flag_if_selected. now rewrite Hsel.
Qed.

Lemma real_run_flags_old_conversations_witness :
  let w := example_world ["alice"; "bob"] in
  let r := archive_user w "alice" (initial example_conversations) in
  DRY_RUN w = false
  /\ In (Db (FindConversations "u1" 6048000000)) (trace r)
  /\ clock w 0 = 8640000000%Z
  /\ isArchived <$> conversations (state (run w example_conversations)) !! "c1"
     = Some (Some true)
  /\ conversations (state r) !! "c2"
     = Some {| user := "u1"; updatedAt := Some 8208000000%Z;
               isArchived := Some false |}
  /\ conversations (state r) !! "c3"
     = Some {| user := "u1"; updatedAt := Some 432000000%Z;
               isArchived := Some true |}.
Proof.
  cbv zeta.
  destruct (real_run_flags_old_conversations
              (example_world ["alice"; "bob"]) example_conversations
              [] "alice" ["bob"] [] (initial example_conversations)
              {| _id := "u1"; username := "alice" |})
    as (_ & Hquery & _ & _ & _ & Hflagged & Hleft); try reflexivity.
  split; [reflexivity|]. split; [exact Hquery|]. split; [reflexivity|].
  split; [|split].
  - exact (Hflagged "c1"
             {| user := "u1"; updatedAt := Some (day 10); isArchived := None |}
             eq_refl eq_refl).
  - exact (Hleft "c2"
             {| user := "u1"; updatedAt := Some (day 95); isArchived := Some false |}
             eq_refl eq_refl).
  - exact (Hleft "c3"
             {| user := "u1"; updatedAt := Some (day 5); isArchived := Some true |}
             eq_refl eq_refl).
Defined.

End ArchiveFacts.

(** ** Paths *)

Module PathFacts.
Import Path.

Lemma has_slash_app a b : has_slash (a +:+ b) = has_slash a || has_slash b.
Proof.
  induction a as [|ch a IH]; [reflexivity|].
  simpl. now rewrite IH, orb_assoc.
Qed.

Lemma length_append a b :
  String.length (a +:+ b) = String.length a + String.length b.
Proof. induction a as [|ch a IH]; simpl; [reflexivity|now rewrite IH]. Qed.

Lemma segments_name s : has_slash s = false -> segments s = [s].
Proof.
  induction s as [|ch s IH]; [reflexivity|].
  cbn [has_slash segments]. intros [Hch Hs]%orb_false_iff.
  now rewrite Hch, (IH Hs).
Qed.

Lemma segments_app a rest :
  has_slash a = false ->
  segments (a +:+ String slash rest) = a :: segments rest.
Proof.
  induction a as [|ch a IH].
  - intros _. reflexivity.
  - simpl. intros [Hch Ha]%orb_false_iff.
    now rewrite Hch, (IH Ha).
Qed.

Lemma ends_with_slash_name s : has_slash s = false -> ends_with_slash s = false.
Proof.
  induction s as [|ch s IH]; [reflexivity|].
  cbn [has_slash]. intros [Hch Hs]%orb_false_iff.
  cbn [ends_with_slash]. destruct s; [exact Hch|now apply IH].
Qed.

Lemma ends_with_slash_app a ch b :
  ends_with_slash (a +:+ String ch b) = ends_with_slash (String ch b).
Proof.
  induction a as [|x a IH]; [reflexivity|].
  rewrite <- IH.
  change (String x a +:+ String ch b) with (String x (a +:+ String ch b)).
  change (ends_with_slash (String x (a +:+ String ch b)))
    with (match a +:+ String ch b with
          | EmptyString => Ascii.eqb x slash
          | _ => ends_with_slash (a +:+ String ch b)
          end).
  now destruct a.
Qed.

Lemma is_name_inv s :
  is_name s = true ->
  has_slash s = false /\ String.eqb s "" = false
  /\ String.eqb s "." = false /\ String.eqb s ".." = false.
Proof.
  unfold is_name. rewrite !andb_true_iff, !negb_true_iff. tauto.
Qed.

Lemma normalize_step_name allowAboveRoot kept seg :
  is_name seg = true -> normalize_step allowAboveRoot kept seg = seg :: kept.
Proof.
  intros (_ & H0 & H1 & H2)%is_name_inv.
  unfold normalize_step. now rewrite H0, H1, H2.
Qed.

Lemma normalize_step_empty allowAboveRoot kept :
  normalize_step allowAboveRoot kept "" = kept.
Proof. reflexivity. Qed.

(** Two paths with the same first character, the same ending and the same
    retained segments have the same normal form. *)
Lemma normalize_congr ch p q :
  ends_with_slash (String ch p) = ends_with_slash (String ch q) ->
  (forall allowAboveRoot,
      normalizeString (String ch p) allowAboveRoot
      = normalizeString (String ch q) allowAboveRoot) ->
  normalize (String ch p) = normalize (String ch q).
Proof.
  intros Hend Hbody. unfold normalize. cbv zeta.
  cbn [starts_with_slash]. now rewrite Hend, Hbody.
Qed.

(** An empty segment between a first name and the rest is of no
    consequence. *)
Lemma normalize_doubled_separator a ch rest :
  has_slash a = false ->
  String.eqb a "" = false ->
  normalize (a +:+ String slash (String slash (String ch rest)))
  = normalize (a +:+ String slash (String ch rest)).
Proof.
  intros Sa Ea. destruct a as [|x a]; [discriminate Ea|].
  change (String x a +:+ String slash (String slash (String ch rest)))
    with (String x (a +:+ String slash (String slash (String ch rest)))).
  change (String x a +:+ String slash (String ch rest))
    with (String x (a +:+ String slash (String ch rest))).
  apply normalize_congr.
  - change (String x (a +:+ String slash (String slash (String ch rest))))
      with (String x a +:+ String slash (String slash (String ch rest))).
    change (String x (a +:+ String slash (String ch rest)))
      with (String x a +:+ String slash (String ch rest)).
    rewrite !ends_with_slash_app. reflexivity.
  - intros allowAboveRoot. unfold normalizeString.
    change (String x (a +:+ String slash (String slash (String ch rest))))
      with (String x a +:+ String slash (String slash (String ch rest))).
    change (String x (a +:+ String slash (String ch rest)))
      with (String x a +:+ String slash (String ch rest)).
    rewrite !(segments_app (String x a)) by exact Sa.
    change (segments (String slash (String ch rest)))
      with (EmptyString :: segments (String ch rest)).
    reflexivity.
Qed.

(** Joining three plain names puts separators between them. *)
Lemma join_names a b c :
  is_name a = true -> is_name b = true -> is_name c = true ->
  join [a; b; c] = a +:+ "/" +:+ b +:+ "/" +:+ c.
Proof.
  intros Ha Hb Hc.
  pose proof (is_name_inv a Ha) as (Sa & Ea & _ & _).
  pose proof (is_name_inv b Hb) as (Sb & Eb & _ & _).
  pose proof (is_name_inv c Hc) as (Sc & Ec & _ & _).
  unfold join. cbn [List.filter]. rewrite Ea, Eb, Ec. cbn [negb unsegments].
  set (p := a +:+ "/" +:+ b +:+ "/" +:+ c).
  assert (Hsegs : segments p = [a; b; c]).
  { unfold p.
    change (a +:+ "/" +:+ b +:+ "/" +:+ c)
      with (a +:+ String slash (b +:+ String slash c)).
    now rewrite (segments_app a _ Sa), (segments_app b _ Sb), (segments_name c Sc). }
  assert (Hbody : normalizeString p true = p).
  { unfold normalizeString. rewrite Hsegs. cbn [fold_left].
    rewrite (normalize_step_name true [] a Ha),
      (normalize_step_name true [a] b Hb),
      (normalize_step_name true [b; a] c Hc).
    reflexivity. }
  assert (Hend : ends_with_slash p = false).
  { destruct c as [|ch c]; [discriminate Ec|].
    unfold p.
    change (a +:+ "/" +:+ b +:+ "/" +:+ String ch c)
      with (a +:+ String slash (b +:+ String slash (String ch c))).
    rewrite ends_with_slash_app.
    change (String slash (b +:+ String slash (String ch c)))
      with (String slash b +:+ String slash (String ch c)).
    rewrite ends_with_slash_app.
    change (String slash (String ch c)) with (String slash EmptyString +:+ String ch c).
    rewrite ends_with_slash_app. now apply ends_with_slash_name. }
  assert (Hstart : starts_with_slash p = false).
  { destruct a as [|ch a]; [discriminate Ea|].
    simpl in Sa. apply orb_false_iff in Sa. exact (proj1 Sa). }
  unfold normalize. cbv zeta. rewrite Hstart, Hend. cbn [negb].
  rewrite Hbody.
  destruct a as [|ch a]; [discriminate Ea|]. reflexivity.
Qed.

End PathFacts.

(** ** The export script *)

Module ExportFacts.
Import Script ScriptFacts ExportScript ExportFiles.
Local Open Scope script_scope.

Section WithMessages.
Context {message : Type} (JSON_stringify : list message -> string).
Implicit Types (w : world message).

Lemma io_call_run w c :
  fails w c = false -> call w c None = Result [Io c] None (Returned tt).
Proof.
  intros H. unfold call, when, await_turn, bind, emit, get, ret.
  destruct (awaited c); cbn; rewrite H; reflexivity.
Qed.

Lemma io_call_fails w c :
  fails w c = true ->
  exists e, call w c None = Result [Io c] None (Thrown e).
Proof.
  intros H. unfold call, when, await_turn, bind, emit, get, ret, throw.
  destruct (awaited c); cbn; rewrite H; cbn; eauto.
Qed.

Lemma unawaited_run w c s :
  unawaited w c s =
  Result [Io c] (if fails w c then reject w s else s) (Returned tt).
Proof.
  unfold unawaited, when, bind, emit, get, put, ret.
  destruct (fails w c); reflexivity.
Qed.

(** A body under a handler that reports the error and the cleanup that
    closes the connection without waiting. *)
Lemma guarded_run (body : M (option nat) event unit)
      (report : js_error -> message_line) w s :
  try_finally (try_catch body (fun error => console_error (report error)))
              (unawaited w Disconnect) s =
  let after := if fails w Disconnect then reject w (state (body s))
               else state (body s) in
  match ending (body s) with
  | Returned _ =>
      Result (trace (body s) ++ [Io Disconnect]) after (Returned tt)
  | Thrown e =>
      Result (trace (body s) ++ [ConsoleError (report e); Io Disconnect])
             after (Returned tt)
  | Exited code => Result (trace (body s)) (state (body s)) (Exited code)
  end.
Proof.
  unfold try_finally, try_catch, console_error.
  destruct (body s) as [t s' [[]|e|code]]; cbn [ending state trace emit];
    rewrite ?unawaited_run; cbn [ending state trace];
    rewrite <- ?List.app_assoc; reflexivity.
Qed.

(** *** Runs with no rejection on its way *)

Lemma settled_ret P {A} (a : A) : settled P (ret a).
Proof. repeat split; [discriminate|constructor]. Qed.

Lemma settled_throw P {A} e : settled P (@throw (option nat) event A e).
Proof. repeat split; [discriminate|constructor]. Qed.

Lemma settled_emit (P : event -> Prop) e : P e -> settled P (emit e).
Proof. intros He. repeat split; [discriminate|now repeat constructor]. Qed.

Lemma settled_bind P {A B} (m : M (option nat) event A)
      (k : A -> M (option nat) event B) :
  settled P m -> (forall a, settled P (k a)) -> settled P (bind m k).
Proof.
  intros (Hs & He & Ht) Hk. unfold settled, bind.
  destruct (m None) as [t s [a|e|code]]; cbn in *; subst s.
  - destruct (Hk a) as (Hs' & He' & Ht').
    repeat split; [assumption|assumption|]. apply Forall_app. now split.
  - repeat split; [discriminate|assumption].
  - now destruct (He code).
Qed.

Lemma settled_for_of P {A} (xs : list A) (body : A -> M (option nat) event unit) :
  (forall x, In x xs -> settled P (body x)) -> settled P (for_of xs body).
Proof.
  induction xs as [|x xs IH]; intros Hbody; cbn [for_of].
  - apply settled_ret.
  - apply settled_bind; [apply Hbody; now left|intros _].
    apply IH. intros y Hy. apply Hbody. now right.
Qed.

Lemma settled_call (P : event -> Prop) w c : P (Io c) -> settled P (call w c).
Proof.
  intros HP. unfold settled.
  destruct (fails w c) eqn:H.
  - destruct (io_call_fails w c H) as [e ->].
    repeat split; [discriminate|now repeat constructor].
  - rewrite (io_call_run w c H).
    repeat split; [discriminate|now repeat constructor].
Qed.

(** A loop whose body, started with no rejection on its way, returns and
    leaves none, runs the body on every element. *)
Lemma for_of_settled_returns {A} (xs : list A)
      (body : A -> M (option nat) event unit) :
  (forall x, In x xs ->
             ending (body x None) = Returned tt /\ state (body x None) = None) ->
  for_of xs body None =
  Result (flat_map (fun x => trace (body x None)) xs) None (Returned tt).
Proof.
  induction xs as [|x xs IH]; intros Hbody; [reflexivity|].
  cbn [for_of flat_map]. unfold bind.
  destruct (Hbody x (or_introl eq_refl)) as [-> ->].
  rewrite IH by (intros y Hy; apply Hbody; now right). reflexivity.
Qed.

Lemma export_conversation_calm w userId c :
  settled (fun e => is_calm e = true)
          (export_conversation JSON_stringify w userId c).
Proof.
  unfold export_conversation, console_log.
  apply settled_bind.
  { destruct (title c); [apply settled_ret|apply settled_throw]. }
  intros conversationTitle.
  apply settled_bind; [now apply settled_call|intros _].
  destruct (Nat.eqb _ 0); [now apply settled_emit|].
  repeat (apply settled_bind; [now apply settled_call|intros _]).
  now apply settled_emit.
Qed.

(** What [exportUserConversations] does inside its [try]. *)
Lemma exportUserConversations_body_calm w userId :
  settled (fun e => is_calm e = true)
          (call w Connect >>
           call w (FindConversations userId) >>
           let found :=
             List.filter (fun c => String.eqb (user c) userId) (conversations w) in
           if Nat.eqb (length found) 0 then
             console_log (NoConversationsFound userId)
           else
             for_of found (export_conversation JSON_stringify w userId)).
Proof.
  apply settled_bind; [now apply settled_call|intros _].
  apply settled_bind; [now apply settled_call|intros _].
  cbv zeta. destruct (Nat.eqb _ 0); [now apply settled_emit|].
  apply settled_for_of. intros c _. apply export_conversation_calm.
Qed.

(** A body that is settled, under the handler and the cleanup, returns;
    and leaves no rejection when the disconnect is not rejected. *)
Lemma guarded_returns_settled P (body : M (option nat) event unit)
      (report : js_error -> message_line) w :
  settled P body ->
  ending (try_finally (try_catch body (fun error => console_error (report error)))
                      (unawaited w Disconnect) None) = Returned tt
  /\ (fails w Disconnect = false ->
      state (try_finally (try_catch body (fun error => console_error (report error)))
                         (unawaited w Disconnect) None) = None).
Proof.
  intros (Hstate & Hexit & _). rewrite guarded_run. cbv zeta.
  destruct (body None) as [t s [[]|e|code]]; cbn in *; subst s.
  - split; [reflexivity|now intros ->].
  - split; [reflexivity|now intros ->].
  - now destruct (Hexit code).
Qed.

(** An error while a user's conversations are exported goes no further
    than [exportUserConversations]. *)
Lemma exportUserConversations_returns w userId :
  ending (exportUserConversations JSON_stringify w userId None) = Returned tt.
Proof.
  unfold exportUserConversations.
  apply (guarded_returns_settled (fun e => is_calm e = true)).
  apply exportUserConversations_body_calm.
Qed.

Lemma exportUserConversations_settled w userId :
  fails w Disconnect = false ->
  settled (fun _ => True) (exportUserConversations JSON_stringify w userId).
Proof.
  intros Hdisconnect.
  pose proof (exportUserConversations_returns w userId) as Hret.
  unfold settled. rewrite Hret.
  repeat split; [|discriminate|apply Forall_forall; auto].
  unfold exportUserConversations.
  apply (guarded_returns_settled (fun e => is_calm e = true));
    [apply exportUserConversations_body_calm|exact Hdisconnect].
Qed.

(** [exportAllUsers] once it has connected and listed the users, when no
    disconnect is rejected. *)
Lemma exportAllUsers_run w :
  fails w Disconnect = false ->
  fails w Connect = false ->
  fails w ListUsers = false ->
  exportAllUsers JSON_stringify w None =
  Result ([Io Connect; Io ListUsers]
            ++ flat_map (fun u => trace (exportUserConversations
                                           JSON_stringify w (_id u) None))
                        (users w)
            ++ [Io Disconnect])
         None (Returned tt).
Proof.
  intros Hdisconnect Hconnect Hlist. unfold exportAllUsers.
  rewrite guarded_run. cbv zeta. rewrite Hdisconnect.
  rewrite (bind_returned _ _ _ _ _ _ (io_call_run w Connect Hconnect)).
  rewrite (bind_returned _ _ _ _ _ _ (io_call_run w ListUsers Hlist)).
  rewrite (for_of_settled_returns (users w)
             (fun u => exportUserConversations JSON_stringify w (_id u))).
  - cbn [prepend ending trace state]. now rewrite <- !List.app_assoc.
  - intros u _. split; [apply exportUserConversations_returns|].
    now apply exportUserConversations_settled.
Qed.

(** [exportAllUsers] when it cannot connect, or cannot list the users. *)
Lemma exportAllUsers_aborts w :
  fails w Connect = true \/ fails w ListUsers = true ->
  exists e,
    exportAllUsers JSON_stringify w None =
    Result ((Io Connect :: if fails w Connect then [] else [Io ListUsers])
              ++ [ConsoleError (ErrorFetchingUsers e); Io Disconnect])
           (if fails w Disconnect then Some (grace w) else None)
           (Returned tt).
Proof.
  intros Hfails. unfold exportAllUsers.
  destruct (fails w Connect) eqn:Hconnect.
  - destruct (io_call_fails w Connect Hconnect) as [e He].
    exists e. rewrite guarded_run. cbv zeta.
    rewrite (bind_thrown _ _ _ _ _ _ He). reflexivity.
  - destruct Hfails as [Hno|Hlist]; [discriminate Hno|].
    destruct (io_call_fails w ListUsers Hlist) as [e He].
    exists e. rewrite guarded_run. cbv zeta.
    rewrite (bind_returned _ _ _ _ _ _ (io_call_run w Connect Hconnect)).
    rewrite (bind_thrown _ _ _ _ _ _ He). reflexivity.
Qed.

(** The script, from what [exportAllUsers] did. *)
Lemma main_run w t s :
  exportAllUsers JSON_stringify w None = Result t s (Returned tt) ->
  main JSON_stringify w =
  Result (t ++ [ConsoleLog FinishedExporting]) s
         match s with
         | Some _ => Exited 1
         | None => Returned tt
         end.
Proof.
  intros H. unfold main. rewrite (bind_returned _ _ _ _ _ _ H).
  unfold console_log, bind, emit, get, exit, ret, prepend.
  destruct s; cbn; now rewrite ?app_nil_r.
Qed.

(** *** The status a run ends the process with *)

Lemma exits_with_one_bind {A B} (m : M (option nat) event A)
      (k : A -> M (option nat) event B) :
  exits_with_one m -> (forall a, exits_with_one (k a)) -> exits_with_one (bind m k).
Proof.
  intros Hm Hk s code. unfold bind. specialize (Hm s).
  destruct (ending (m s)) as [a|e|c]; cbn;
    [apply Hk|discriminate|intros [= ->]; now apply Hm].
Qed.

Lemma exits_with_one_for_of {A} (xs : list A)
      (body : A -> M (option nat) event unit) :
  (forall x, exits_with_one (body x)) -> exits_with_one (for_of xs body).
Proof.
  intros Hbody. induction xs as [|x xs IH]; cbn [for_of].
  - intros s code H. discriminate H.
  - apply exits_with_one_bind; [apply Hbody|intros _; exact IH].
Qed.

Lemma exits_with_one_call w c : exits_with_one (call w c).
Proof.
  intros s code. unfold call, when, await_turn, bind, emit, get, put, ret,
    exit, throw.
  destruct (awaited c), s as [[|n]|], (fails w c); cbn; congruence.
Qed.

Lemma exits_with_one_emit e : exits_with_one (emit e).
Proof. intros s code H. discriminate H. Qed.

Lemma exits_with_one_guarded (body : M (option nat) event unit)
      (report : js_error -> message_line) w :
  exits_with_one body ->
  exits_with_one
    (try_finally (try_catch body (fun error => console_error (report error)))
                 (unawaited w Disconnect)).
Proof.
  intros Hbody s code. rewrite guarded_run. cbv zeta. specialize (Hbody s).
  destruct (ending (body s)) as [[]|e|c]; cbn; try discriminate.
  intros [= ->]. now apply Hbody.
Qed.

Lemma exits_with_one_export_conversation w userId c :
  exits_with_one (export_conversation JSON_stringify w userId c).
Proof.
  unfold export_conversation, console_log.
  apply exits_with_one_bind.
  { destruct (title c) as [t|]; intros s code H; discriminate H. }
  intros conversationTitle.
  apply exits_with_one_bind; [apply exits_with_one_call|intros _].
  destruct (Nat.eqb _ 0); [apply exits_with_one_emit|].
  repeat (apply exits_with_one_bind; [apply exits_with_one_call|intros _]).
  apply exits_with_one_emit.
Qed.

Lemma exits_with_one_exportUserConversations w userId :
  exits_with_one (exportUserConversations JSON_stringify w userId).
Proof.
  unfold exportUserConversations. apply exits_with_one_guarded.
  apply exits_with_one_bind; [apply exits_with_one_call|intros _].
  apply exits_with_one_bind; [apply exits_with_one_call|intros _].
  cbv zeta. destruct (Nat.eqb _ 0); [apply exits_with_one_emit|].
  apply exits_with_one_for_of. intros c. apply exits_with_one_export_conversation.
Qed.

(** No disconnect is awaited or handled: a run in which the disconnect is
    rejected ends the process with status 1. *)
Lemma rejected_disconnect_ends_process w :
  fails w Disconnect = true ->
  ending (main JSON_stringify w) = Exited 1.
Proof.
  intros Hdisconnect.
  assert (Hexit : exits_with_one (exportAllUsers JSON_stringify w)).
  { unfold exportAllUsers. apply exits_with_one_guarded.
    apply exits_with_one_bind; [apply exits_with_one_call|intros _].
    apply exits_with_one_bind; [apply exits_with_one_call|intros _].
    apply exits_with_one_for_of. intros u.
    apply exits_with_one_exportUserConversations. }
  specialize (Hexit None).
  destruct (exportAllUsers JSON_stringify w None) as [t s [[]|e|code]] eqn:Hrun.
  - rewrite (main_run w t s Hrun). cbn [ending].
    unfold exportAllUsers in Hrun. rewrite guarded_run in Hrun. cbv zeta in Hrun.
    rewrite Hdisconnect in Hrun. unfold reject in Hrun.
    destruct (ending _) in Hrun; inversion Hrun; reflexivity.
  - unfold exportAllUsers in Hrun. rewrite guarded_run in Hrun. cbv zeta in Hrun.
    destruct (ending _) in Hrun; discriminate Hrun.
  - unfold main. rewrite (bind_exited _ _ _ _ _ _ Hrun). cbn [ending].
    now rewrite (Hexit code eq_refl).
Qed.

(** C5, amended: an error while one user's conversations are exported
    is caught and reported inside [exportUserConversations], which closes
    the connection and returns normally: the error ends the export of
    that user's remaining conversations, and of theirs only. As long as
    no disconnect is rejected, [exportAllUsers], once it has connected
    and listed the users, runs the export of every user in turn,
    whatever happened to the users before, and returns. An error of
    [exportAllUsers] itself (connecting, listing the users) is reported
    and no user is exported. No disconnect is awaited or handled: a
    rejected one is an unhandled rejection, and the process ends with
    status 1. *)
Theorem export_error_is_confined_to_its_user w :
  (forall userId, ending (exportUserConversations JSON_stringify w userId None)
                  = Returned tt)
  /\ (forall userId before c after t1 t e,
         fails w Connect = false ->
         fails w (FindConversations userId) = false ->
         List.filter (fun c => String.eqb (user c) userId) (conversations w)
         = before ++ c :: after ->
         for_of before (export_conversation JSON_stringify w userId) None
         = Result t1 None (Returned tt) ->
         export_conversation JSON_stringify w userId c None
         = Result t None (Thrown e) ->
         trace (exportUserConversations JSON_stringify w userId None)
         = [Io Connect; Io (FindConversations userId)] ++ t1 ++ t
             ++ [ConsoleError (ErrorExporting e); Io Disconnect])
  /\ (fails w Disconnect = false ->
      fails w Connect = false ->
      fails w ListUsers = false ->
      exportAllUsers JSON_stringify w None =
      Result ([Io Connect; Io ListUsers]
                ++ flat_map (fun u => trace (exportUserConversations
                                               JSON_stringify w (_id u) None))
                            (users w)
                ++ [Io Disconnect])
             None (Returned tt))
  /\ (fails w Connect = true \/ fails w ListUsers = true ->
      exists e,
        trace (exportAllUsers JSON_stringify w None) =
        (Io Connect :: if fails w Connect then [] else [Io ListUsers])
          ++ [ConsoleError (ErrorFetchingUsers e); Io Disconnect])
  /\ (fails w Disconnect = true ->
      ending (main JSON_stringify w) = Exited 1).
Proof.
  split; [intros userId; apply exportUserConversations_returns|].
  split; [|split; [apply exportAllUsers_run|split]].
  - intros userId before c after t1 t e Hconnect Hfind Hfound Hbefore Hc.
    unfold exportUserConversations. rewrite guarded_run. cbv zeta.
    rewrite (bind_returned _ _ _ _ _ _ (io_call_run w Connect Hconnect)).
    rewrite (bind_returned _ _ _ _ _ _ (io_call_run w _ Hfind)).
    rewrite Hfound.
    replace (Nat.eqb (length (before ++ c :: after)) 0) with false
      by (rewrite length_app; cbn [length]; symmetry; apply Nat.eqb_neq; lia).
    rewrite for_of_app, (bind_returned _ _ _ _ _ _ Hbefore).
    cbn [for_of]. rewrite (bind_thrown _ _ _ _ _ _ Hc).
    cbn [prepend ending trace]. now rewrite <- !List.app_assoc.
  - intros Hfails. destruct (exportAllUsers_aborts w Hfails) as [e ->].
    now exists e.
  - apply rejected_disconnect_ends_process.
Qed.

(** *** The exported file *)

Lemma has_slash_sanitize t : Path.has_slash (sanitize t) = false.
Proof.
  induction t as [|ch t IH]; [reflexivity|].
  cbn [sanitize Path.has_slash]. rewrite IH, orb_false_r.
  destruct (is_special ch) eqn:Hch; [reflexivity|].
  destruct (Ascii.eqb_spec ch Path.slash) as [->|]; [discriminate Hch|reflexivity].
Qed.

Lemma get_sanitize t n :
  String.get n (sanitize t) =
  (fun ch => if is_special ch then "-"%char else ch) <$> String.get n t.
Proof.
  revert n. induction t as [|ch t IH]; intros n; [reflexivity|].
  destruct n as [|n]; [reflexivity|]. cbn [sanitize String.get]. apply IH.
Qed.

Lemma long_is_not_dots s :
  2 < String.length s ->
  String.eqb s "" = false /\ String.eqb s "." = false /\ String.eqb s ".." = false.
Proof.
  intros Hlen. repeat split; apply String.eqb_neq; intros ->; cbn in Hlen; lia.
Qed.

(** The file name of a conversation is a plain name when neither its
    model nor its identifier has a separator in it. *)
Lemma fileName_is_name t c :
  Path.has_slash (interpolate (model c)) = false ->
  Path.has_slash (conversationId c) = false ->
  Path.is_name (fileName (sanitize t) c) = true.
Proof.
  intros Hm Hid. unfold Path.is_name, fileName.
  rewrite !PathFacts.has_slash_app, has_slash_sanitize, Hm, Hid.
  destruct (long_is_not_dots
              (sanitize t +:+ "--" +:+ interpolate (model c) +:+ "-"
                        +:+ conversationId c +:+ ".json")) as (-> & -> & ->).
  - rewrite !PathFacts.length_append. cbn [String.length]. lia.
  - reflexivity.
Qed.

Lemma fileName_not_empty title c : String.eqb (fileName title c) "" = false.
Proof.
  apply long_is_not_dots. unfold fileName.
  rewrite !PathFacts.length_append. cbn [String.length]. lia.
Qed.

(** The export path is the normal form of the path the specification
    gives. *)
Lemma exportPath_is_normal_form userName title c :
  exportPath_of userName title c
  = Path.normalize (path_as_specified userName title c).
Proof.
  unfold exportPath_of, path_as_specified.
  pose proof (fileName_not_empty title c) as Hfile.
  generalize dependent (fileName title c). intros file Hfile.
  destruct file as [|ch rest]; [discriminate Hfile|].
  unfold Path.join. destruct userName as [|u0 u].
  - cbn [List.filter String.eqb negb exportDir]. cbn [Path.unsegments].
    symmetry. apply (PathFacts.normalize_doubled_separator "export"); reflexivity.
  - reflexivity.
Qed.

(** C6, amended: a conversation with a title and with messages is
    written to [path.join(export-root, username, file)], where [file] is
    [<sanitized-title>--<model>-<conversation-id>.json], the sanitized
    title is the title with each of the ten special characters replaced
    by a hyphen, and the username is [unknown_user] when the user or
    its username is missing; the content is the messages as
    [JSON.stringify] prints them. That path is the normal form of
    [<export-root>/<username>/<file>], and is that very path when the
    username is a plain directory name (not empty, without separator,
    neither [.] nor [..]) and neither the model nor the conversation
    identifier has a separator in it. *)
Theorem exported_file_path w userId c t :
  title c = Some t ->
  messages w (conversationId c) <> [] ->
  fails w (GetMessages (conversationId c)) = false ->
  fails w (FindUserById userId) = false ->
  (forall dir, fails w (Mkdir dir) = false) ->
  (forall file text, fails w (WriteFile file text) = false) ->
  let userName :=
    userName_of (List.find (fun u => String.eqb (_id u) userId) (users w)) in
  let exportPath := Path.join [exportDir; userName; fileName (sanitize t) c] in
  export_conversation JSON_stringify w userId c None =
  Result [ Io (GetMessages (conversationId c)); Io (FindUserById userId);
           Io (Mkdir (Path.dirname exportPath));
           Io (WriteFile exportPath (JSON_stringify (messages w (conversationId c))));
           ConsoleLog (ConversationExported t exportPath) ]
         None (Returned tt)
  /\ exportPath = Path.normalize (path_as_specified userName (sanitize t) c)
  /\ (Path.is_name userName = true ->
      Path.has_slash (interpolate (model c)) = false ->
      Path.has_slash (conversationId c) = false ->
      exportPath = path_as_specified userName (sanitize t) c)
  /\ (forall n, String.get n (sanitize t) =
                (fun ch => if is_special ch then "-"%char else ch)
                  <$> String.get n t)
  /\ userName_of None = "unknown_user"
  /\ (forall id, userName_of (Some {| _id := id; username := None |})
                 = "unknown_user")
  /\ (forall id name, userName_of (Some {| _id := id; username := Some name |})
                      = name).
Proof.
  intros Htitle Hmsgs Hget Huser Hmkdir Hwrite userName exportPath.
  split; [|split; [apply exportPath_is_normal_form|
                   split; [|split; [apply get_sanitize|repeat split]]]].
  - unfold export_conversation. rewrite Htitle, ret_bind.
    rewrite (bind_returned _ _ _ _ _ _ (io_call_run w _ Hget)).
    destruct (messages w (conversationId c)) as [|m msgs] eqn:Hm;
      [contradiction|].
    cbn [length Nat.eqb].
    rewrite (bind_returned _ _ _ _ _ _ (io_call_run w _ Huser)).
    fold userName. unfold exportPath_of. fold exportPath.
    rewrite (bind_returned _ _ _ _ _ _ (io_call_run w _ (Hmkdir _))).
    rewrite (bind_returned _ _ _ _ _ _ (io_call_run w _ (Hwrite _ _))).
    reflexivity.
  - intros Hname Hmodel Hid. unfold exportPath, path_as_specified.
    apply PathFacts.join_names; [reflexivity|exact Hname|].
    now apply fileName_is_name.
Qed.

End WithMessages.

(** C6, as stated, fails: the third user has the empty username, which is
    not missing, so no placeholder stands in for it, and [path.join]
    leaves an empty segment out: the file is written into the export root
    and not into a directory of the user. A username [..] takes the file
    out of the export root. *)
Lemma empty_username_has_no_directory :
  let w := example_world nothing_fails in
  let c3 := {| user := "u3"; conversationId := "c3";
               title := Some "Notes"; model := Some "gpt-4" |} in
  List.find (fun u => String.eqb (_id u) "u3") (users w)
  = Some {| _id := "u3"; username := Some "" |}
  /\ written (trace (exportUserConversations example_stringify w "u3" None))
     = [ ("export/Notes--gpt-4-c3.json", "[{}]") ]
  /\ path_as_specified "" (sanitize "Notes") c3 = "export//Notes--gpt-4-c3.json"
  /\ exportPath_of "" (sanitize "Notes") c3
     <> path_as_specified "" (sanitize "Notes") c3
  /\ exportPath_of ".." (sanitize "Notes") c3 = "Notes--gpt-4-c3.json".
Proof. cbv zeta. repeat split; try (vm_compute; reflexivity). vm_compute. discriminate. Qed.

Lemma exported_file_path_witness :
  let w := example_world nothing_fails in
  let c2 := {| user := "u2"; conversationId := "c2";
               title := Some "Q&A: 50%/100%?"; model := Some "gpt-4" |} in
  Path.is_name "bob" = true
  /\ Path.join [exportDir; "bob"; fileName (sanitize "Q&A: 50%/100%?") c2]
     = "export/bob/Q&A- 50--100----gpt-4-c2.json".
Proof.
  cbv zeta. split; [reflexivity|].
  refine (proj1 (proj2 (proj2 (exported_file_path
                          example_stringify (example_world nothing_fails) "u2"
                          {| user := "u2"; conversationId := "c2";
                             title := Some "Q&A: 50%/100%?"; model := Some "gpt-4" |}
                          "Q&A: 50%/100%?" _ _ _ _ _ _))) _ _ _);
    try reflexivity.
  discriminate.
Defined.

(** C5, as stated, fails: reading the messages of ann's conversation
    fails, the error is reported, and the run goes on to export bob's
    conversation, and then the third user's. *)
Lemma export_goes_on_after_an_error :
  let w := example_world messages_of_c1_fail in
  let r := main example_stringify w in
  trace r =
  [ Io Connect; Io ListUsers;
    Io Connect; Io (FindConversations "u1"); Io (GetMessages "c1");
    ConsoleError (ErrorExporting DbError); Io Disconnect;
    Io Connect; Io (FindConversations "u2"); Io (GetMessages "c2");
    Io (FindUserById "u2"); Io (Mkdir "export/bob");
    Io (WriteFile "export/bob/Q&A- 50--100----gpt-4-c2.json" "[{}]");
    ConsoleLog (ConversationExported "Q&A: 50%/100%?"
                                     "export/bob/Q&A- 50--100----gpt-4-c2.json");
    Io Disconnect;
    Io Connect; Io (FindConversations "u3"); Io (GetMessages "c3");
    Io (FindUserById "u3"); Io (Mkdir "export");
    Io (WriteFile "export/Notes--gpt-4-c3.json" "[{}]");
    ConsoleLog (ConversationExported "Notes" "export/Notes--gpt-4-c3.json");
    Io Disconnect;
    Io Disconnect; ConsoleLog FinishedExporting ]
  /\ ending r = Returned tt.
Proof. cbv zeta. split; vm_compute; reflexivity. Qed.

(** A rejected disconnect cuts the run short: ann's conversation is
    exported, the disconnect that follows is rejected, and the process is
    ended two awaited calls later, before anything of bob's is read. *)
Lemma rejected_disconnect_cuts_the_run_short :
  let w := example_world disconnect_fails in
  let r := main example_stringify w in
  trace r =
  [ Io Connect; Io ListUsers;
    Io Connect; Io (FindConversations "u1"); Io (GetMessages "c1");
    Io (FindUserById "u1"); Io (Mkdir "export/ann");
    Io (WriteFile "export/ann/Plans--gpt-4-c1.json" "[{}]");
    ConsoleLog (ConversationExported "Plans" "export/ann/Plans--gpt-4-c1.json");
    Io Disconnect;
    Io Connect; Io (FindConversations "u2") ]
  /\ ending r = Exited 1.
Proof. cbv zeta. split; vm_compute; reflexivity. Qed.

Lemma export_error_is_confined_to_its_user_witness :
  let w := example_world messages_of_c1_fail in
  written (trace (exportAllUsers example_stringify w None)) =
  [ ("export/bob/Q&A- 50--100----gpt-4-c2.json", "[{}]");
    ("export/Notes--gpt-4-c3.json", "[{}]") ]
  /\ trace (exportUserConversations example_stringify w "u1" None) =
     [ Io Connect; Io (FindConversations "u1"); Io (GetMessages "c1");
       ConsoleError (ErrorExporting DbError); Io Disconnect ]
  /\ ending (main example_stringify (example_world disconnect_fails)) = Exited 1.
Proof.
  cbv zeta.
  destruct (export_error_is_confined_to_its_user
              example_stringify (example_world messages_of_c1_fail))
    as (_ & Hreported & Hall & _ & _).
  destruct (export_error_is_confined_to_its_user
              example_stringify (example_world disconnect_fails))
    as (_ & _ & _ & _ & Hrejected).
  split; [|split].
  - rewrite Hall by reflexivity. vm_compute. reflexivity.
  - exact (Hreported "u1" []
             {| user := "u1"; conversationId := "c1";
                title := Some "Plans"; model := Some "gpt-4" |}
             [] [] [Io (GetMessages "c1")] DbError
             eq_refl eq_refl eq_refl eq_refl eq_refl).
  - exact (Hrejected eq_refl).
Defined.

End ExportFacts.

(** ** More on the archival script *)

Module ArchiveMore.
Import Script ScriptFacts Archive ArchiveFacts ArchiveInvariants.
Local Open Scope script_scope.

Lemma call_fails w c s :
  fails w c = true -> call w c s = Result [Db c] s (Thrown DbError).
Proof. intros H. unfold call, bind, emit, throw. rewrite H. reflexivity. Qed.

(** The loop body, case by case: what it prints and calls, the store it
    leaves and how it ends. *)
Lemma archive_user_cases w name s :
  archive_user w name s =
  if negb (valid_username name) then
    Result [ConsoleError InvalidUsernameFormat] s (Exited 1)
  else if fails w (FindUser name) then
    Result [Db (FindUser name)] s (Thrown DbError)
  else
    match List.find (fun u => String.eqb (username u) name) (users w) with
    | None =>
        Result [Db (FindUser name); ConsoleError (UserNotFound name)] s (Exited 1)
    | Some u =>
        let before := dateThreshold w (clock w (clock_reads s)) in
        let ids := selected_ids (_id u) before (conversations s) in
        let count := length ids in
        let looked :=
          [ Db (FindUser name); ConsoleLog (ProcessingConversations name (_id u));
            Db (FindConversations (_id u) before) ] in
        if fails w (FindConversations (_id u) before) then
          Result looked (tick s) (Thrown DbError)
        else if Nat.eqb count 0 then
          Result (looked ++ [ConsoleLog (NoConversationsToArchive name)])
                 (tick s) (Returned tt)
        else if DRY_RUN w then
          Result (looked ++ [ConsoleLog (DryRunWouldArchive count name)])
                 (tick s) (Returned tt)
        else if fails w (UpdateMany ids) then
          Result (looked ++ [ConsoleLog (Archiving count name); Db (UpdateMany ids)])
                 (tick s) (Thrown DbError)
        else
          Result (looked ++ [ConsoleLog (Archiving count name); Db (UpdateMany ids);
                             ConsoleLog (Archived count name)])
                 (flagged ids (tick s)) (Returned tt)
    end.
Proof.
  destruct (valid_username name) eqn:Hvalid; cbn [negb].
  2:{ now apply archive_user_invalid. }
  unfold archive_user. rewrite Hvalid. cbn [negb when]. rewrite ret_bind.
  destruct (fails w (FindUser name)) eqn:Huser.
  { apply bind_thrown. unfold findOne. apply bind_thrown. now apply call_fails. }
  rewrite (bind_returned _ _ _ _ _ _ (findOne_run _ _ _ Huser)).
  destruct (List.find _ (users w)) as [u|]; [|reflexivity].
  cbv zeta.
  set (before := dateThreshold w (clock w (clock_reads s))).
  set (ids := selected_ids (_id u) before (conversations s)).
  unfold console_log at 1.
  rewrite (bind_returned _ _ s [ConsoleLog (ProcessingConversations name (_id u))]
                         s tt) by reflexivity.
  rewrite (bind_returned _ _ _ _ _ _ (new_Date_run w s)). fold before.
  destruct (fails w (FindConversations (_id u) before)) eqn:Hfind.
  { rewrite (bind_thrown _ _ (tick s) [Db (FindConversations (_id u) before)]
                         (tick s) DbError); [reflexivity|].
    unfold find. apply bind_thrown. now apply call_fails. }
  rewrite (bind_returned _ _ _ _ _ _ (find_run w (_id u) before (tick s) Hfind)).
  cbn [tick conversations]. fold (selected_ids (_id u) before (conversations s)).
  fold ids. rewrite <- (length_map fst).
  fold (selected_ids (_id u) before (conversations s)). fold ids.
  destruct (Nat.eqb (length ids) 0); [reflexivity|].
  destruct (DRY_RUN w); [reflexivity|].
  unfold console_log.
  rewrite (bind_returned _ _ (tick s) [ConsoleLog (Archiving (length ids) name)]
                         (tick s) tt) by reflexivity.
  destruct (fails w (UpdateMany ids)) eqn:Hupdate.
  { rewrite (bind_thrown _ _ (tick s) [Db (UpdateMany ids)] (tick s) DbError);
      [reflexivity|].
    unfold updateMany. apply bind_thrown. now apply call_fails. }
  rewrite (bind_returned _ _ _ _ _ _ (updateMany_run w ids (tick s) Hupdate)).
  reflexivity.
Qed.

(** *** How a run ends *)

Lemma no_username_given_run w convs :
  usernamesToArchive w = [] ->
  fails w Connect = false ->
  run w convs =
  Result [ Db Connect; ConsoleLog ConnectedToMongoDB;
           ConsoleError PleaseProvideUsername ]
         (initial convs) (Exited 1).
Proof.
  intros Hargs Hconnect. unfold run, archiveOldConversations.
  apply try_finally_exited, try_catch_exited.
  rewrite (bind_returned _ _ _ _ _ _ (call_run w Connect _ Hconnect)).
  unfold console_log at 1.
  rewrite (bind_returned _ _ (initial convs) [ConsoleLog ConnectedToMongoDB]
                         (initial convs) tt) by reflexivity.
  rewrite Hargs. cbn [length Nat.eqb when].
  rewrite (bind_exited _ _ (initial convs) [ConsoleError PleaseProvideUsername]
                       (initial convs) 1%Z) by reflexivity.
  reflexivity.
Qed.

(** X1. Without a username on the command line the script connects, asks
    for a username and ends the process with status 1: nothing is looked
    up, nothing is changed, and the connection is not closed. *)
Theorem no_username_given w convs :
  usernamesToArchive w = [] ->
  fails w Connect = false ->
  run w convs =
  Result [ Db Connect; ConsoleLog ConnectedToMongoDB;
           ConsoleError PleaseProvideUsername ]
         (initial convs) (Exited 1)
  /\ conversations (state (run w convs)) = convs
  /\ Forall (fun e => is_disconnect e = false) (trace (run w convs)).
Proof.
  intros Hargs Hconnect. rewrite (no_username_given_run w convs Hargs Hconnect).
  repeat split. repeat constructor.
Qed.

Lemma no_username_given_witness :
  ending (run (example_world []) example_conversations) = Exited 1.
Proof.
  rewrite (proj1 (no_username_given (example_world []) example_conversations
                                    eq_refl eq_refl)).
  reflexivity.
Defined.

(** X2. When the loop reaches a well-formed username that no user has, the
    script reports that the user was not found and ends the process with
    status 1; the usernames after it are not looked at. *)
Theorem unknown_user_stops_run w convs pre name post t1 s1 :
  fails w Connect = false ->
  usernamesToArchive w = pre ++ name :: post ->
  archive_all w pre (initial convs) = Result t1 s1 (Returned tt) ->
  valid_username name = true ->
  fails w (FindUser name) = false ->
  List.find (fun u => String.eqb (username u) name) (users w) = None ->
  run w convs =
  Result ([Db Connect; ConsoleLog ConnectedToMongoDB] ++ t1
            ++ [Db (FindUser name); ConsoleError (UserNotFound name)])
         s1 (Exited 1).
Proof.
  intros Hconnect Hargs Hpre Hvalid Hlookup Hnone.
  rewrite run_enters_loop; [|assumption|rewrite Hargs; now destruct pre].
  rewrite Hargs, (finish_app _ _ _ _ _ _ Hpre).
  erewrite finish_cons_exited; [reflexivity|].
  now rewrite archive_user_cases, Hvalid, Hlookup, Hnone.
Qed.

Lemma unknown_user_stops_run_witness :
  run (example_world ["carol"; "alice"]) example_conversations =
  Result [ Db Connect; ConsoleLog ConnectedToMongoDB;
           Db (FindUser "carol"); ConsoleError (UserNotFound "carol") ]
         (initial example_conversations) (Exited 1).
Proof.
  apply (unknown_user_stops_run (example_world ["carol"; "alice"])
           example_conversations [] "carol" ["alice"] []
           (initial example_conversations)); reflexivity.
Defined.

Lemma finish_cons_thrown w name rest s t s' e :
  archive_user w name s = Result t s' (Thrown e) ->
  fails w Disconnect = false ->
  finish w (name :: rest) s =
  Result (t ++ [ ConsoleError (ErrorArchiving e); Db Disconnect;
                 ConsoleLog DisconnectedFromMongoDB ])
         s' (Returned tt).
Proof.
  intros Hname Hdisconnect. unfold finish, try_finally, try_catch.
  assert (Hbody : (for_of (name :: rest) (archive_user w)
                   >> console_log ArchivingCompleted) s
                  = Result t s' (Thrown e)).
  { cbn [for_of]. apply bind_thrown. now apply bind_thrown. }
  rewrite Hbody. cbn [ending trace state console_error emit].
  rewrite (bind_returned _ _ _ _ _ _ (call_run w Disconnect s' Hdisconnect)).
  cbn. now rewrite <- List.app_assoc.
Qed.

(** X3. When a database call fails while a user is processed, the error
    is reported, the usernames after it are not processed, the connection
    is closed and the function returns; what was archived for the users
    before stays archived. *)
Theorem database_error_ends_run w convs pre name post t1 s1 t s2 e :
  fails w Connect = false ->
  fails w Disconnect = false ->
  usernamesToArchive w = pre ++ name :: post ->
  archive_all w pre (initial convs) = Result t1 s1 (Returned tt) ->
  archive_user w name s1 = Result t s2 (Thrown e) ->
  run w convs =
  Result ([Db Connect; ConsoleLog ConnectedToMongoDB] ++ t1 ++ t
            ++ [ ConsoleError (ErrorArchiving e); Db Disconnect;
                 ConsoleLog DisconnectedFromMongoDB ])
         s2 (Returned tt).
Proof.
  intros Hconnect Hdisconnect Hargs Hpre Hname.
  rewrite run_enters_loop; [|assumption|rewrite Hargs; now destruct pre].
  rewrite Hargs, (finish_app _ _ _ _ _ _ Hpre).
  rewrite (finish_cons_thrown _ _ _ _ _ _ _ Hname Hdisconnect).
  reflexivity.
Qed.

Lemma database_error_ends_run_witness :
  run (example_world_without_lookup ["alice"; "bob"]) example_conversations =
  Result [ Db Connect; ConsoleLog ConnectedToMongoDB; Db (FindUser "alice");
           ConsoleError (ErrorArchiving DbError); Db Disconnect;
           ConsoleLog DisconnectedFromMongoDB ]
         (initial example_conversations) (Returned tt).
Proof.
  apply (database_error_ends_run
           (example_world_without_lookup ["alice"; "bob"])
           example_conversations [] "alice" ["bob"] []
           (initial example_conversations) [Db (FindUser "alice")]
           (initial example_conversations) DbError); reflexivity.
Defined.

(** X4. When the connection cannot be opened, the error is reported,
    nothing is looked up or changed, a disconnect is attempted all the same
    and the function returns. *)
Theorem connection_failure_is_reported w convs :
  fails w Connect = true ->
  fails w Disconnect = false ->
  run w convs =
  Result [ Db Connect; ConsoleError (ErrorArchiving DbError); Db Disconnect;
           ConsoleLog DisconnectedFromMongoDB ]
         (initial convs) (Returned tt).
Proof.
  intros Hconnect Hdisconnect. unfold run, archiveOldConversations.
  unfold try_finally, try_catch.
  rewrite (bind_thrown _ _ (initial convs) [Db Connect] (initial convs) DbError)
    by now apply call_fails.
  cbn [ending trace state console_error emit].
  rewrite (bind_returned _ _ _ _ _ _ (call_run w Disconnect _ Hdisconnect)).
  reflexivity.
Qed.

Lemma connection_failure_is_reported_witness :
  run (example_world_offline ["alice"]) example_conversations =
  Result [ Db Connect; ConsoleError (ErrorArchiving DbError); Db Disconnect;
           ConsoleLog DisconnectedFromMongoDB ]
         (initial example_conversations) (Returned tt).
Proof.
  apply (connection_failure_is_reported (example_world_offline ["alice"])
           example_conversations); reflexivity.
Defined.

(** *** Closing the connection *)

Lemma archive_user_never_disconnects w name s :
  Forall (fun e => is_disconnect e = false) (trace (archive_user w name s)).
Proof.
  rewrite archive_user_cases. cbv zeta.
  repeat match goal with
         | |- context [if ?b then _ else _] => destruct b
         | |- context [match ?o with Some _ => _ | None => _ end] => destruct o
         end; cbn [trace app]; repeat constructor.
Qed.

Lemma archive_user_exit_code w name s code :
  ending (archive_user w name s) = Exited code -> code = 1%Z.
Proof.
  rewrite archive_user_cases. cbv zeta.
  repeat match goal with
         | |- context [if ?b then _ else _] => destruct b
         | |- context [match ?o with Some _ => _ | None => _ end] => destruct o
         end; cbn [ending]; congruence.
Qed.

Lemma archive_all_exit_code w names : forall s code,
  ending (archive_all w names s) = Exited code -> code = 1%Z.
Proof.
  unfold archive_all. induction names as [|name names IH]; intros s code.
  - discriminate.
  - cbn [for_of]. unfold bind.
    destruct (ending (archive_user w name s)) eqn:Hname; cbn [ending].
    + apply IH.
    + discriminate.
    + intros [= <-]. exact (archive_user_exit_code _ _ _ _ Hname).
Qed.

Lemma archive_all_never_disconnects w names s :
  Forall (fun e => is_disconnect e = false) (trace (archive_all w names s)).
Proof.
  apply (keeps_for_of (fun _ _ => True) (fun e => is_disconnect e = false));
    [auto|auto|].
  intros name s'. split; [exact I|apply archive_user_never_disconnects].
Qed.

Lemma cleanup_run w s :
  (call w Disconnect >> console_log DisconnectedFromMongoDB) s =
  if fails w Disconnect then Result [Db Disconnect] s (Thrown DbError)
  else Result [Db Disconnect; ConsoleLog DisconnectedFromMongoDB] s (Returned tt).
Proof.
  destruct (fails w Disconnect) eqn:H.
  - apply bind_thrown. now apply call_fails.
  - now rewrite (bind_returned _ _ _ _ _ _ (call_run w Disconnect s H)).
Qed.

(** The [finally] of the script around a body that has not exited. *)
Lemma closes_after (body : Run unit) w s t s' o :
  body s = Result t s' o ->
  (forall code, o <> Exited code) ->
  let r := try_finally body
             (call w Disconnect >> console_log DisconnectedFromMongoDB) s in
  trace r = t ++ Db Disconnect
              :: (if fails w Disconnect then []
                  else [ConsoleLog DisconnectedFromMongoDB])
  /\ forall code, ending r <> Exited code.
Proof.
  intros Hbody Ho r. unfold r, try_finally. rewrite Hbody.
  cbn [ending trace state]. rewrite cleanup_run.
  destruct o as [[]|e|code]; [| |now destruct (Ho code)];
    destruct (fails w Disconnect); cbn; (split; [reflexivity|discriminate]).
Qed.

Lemma disconnect_discipline (r : result store event unit) w t :
  Forall (fun e => is_disconnect e = false) t ->
  trace r = t ++ Db Disconnect
              :: (if fails w Disconnect then []
                  else [ConsoleLog DisconnectedFromMongoDB]) ->
  (forall code, ending r <> Exited code) ->
  match ending r with
  | Exited code =>
      code = 1%Z /\ Forall (fun e => is_disconnect e = false) (trace r)
  | _ =>
      exists t,
        Forall (fun e => is_disconnect e = false) t
        /\ trace r = t ++ Db Disconnect
                       :: (if fails w Disconnect then []
                           else [ConsoleLog DisconnectedFromMongoDB])
  end.
Proof.
  intros Hquiet Htrace Hend.
  destruct (ending r) as [[]|e|code]; [eauto|eauto|now destruct (Hend code)].
Qed.

Lemma finish_discipline w rest s :
  match ending (finish w rest s) with
  | Exited code =>
      code = 1%Z
      /\ Forall (fun e => is_disconnect e = false) (trace (finish w rest s))
  | _ =>
      exists t,
        Forall (fun e => is_disconnect e = false) t
        /\ trace (finish w rest s) =
           t ++ Db Disconnect
             :: (if fails w Disconnect then []
                 else [ConsoleLog DisconnectedFromMongoDB])
  end.
Proof.
  pose proof (archive_all_never_disconnects w rest s) as Hquiet.
  pose proof (archive_all_exit_code w rest s) as Hcode.
  unfold archive_all in *.
  destruct (for_of rest (archive_user w) s) as [t s' [[]|e|code]] eqn:Hloop;
    cbn [trace ending] in *.
  - assert (Hbody : try_catch
                      (for_of rest (archive_user w) >> console_log ArchivingCompleted)
                      (fun error => console_error (ErrorArchiving error)) s
                    = Result (t ++ [ConsoleLog ArchivingCompleted]) s' (Returned tt)).
    { apply try_catch_returned.
      now rewrite (bind_returned _ _ _ _ _ _ Hloop). }
    destruct (closes_after _ w s _ _ _ Hbody) as [Htrace Hend]; [discriminate|].
    apply (disconnect_discipline _ w (t ++ [ConsoleLog ArchivingCompleted]));
      [|exact Htrace|exact Hend].
    apply Forall_app. split; [exact Hquiet|now repeat constructor].
  - assert (Hbody : try_catch
                      (for_of rest (archive_user w) >> console_log ArchivingCompleted)
                      (fun error => console_error (ErrorArchiving error)) s
                    = Result (t ++ [ConsoleError (ErrorArchiving e)]) s' (Returned tt)).
    { unfold try_catch. now rewrite (bind_thrown _ _ _ _ _ _ Hloop). }
    destruct (closes_after _ w s _ _ _ Hbody) as [Htrace Hend]; [discriminate|].
    apply (disconnect_discipline _ w (t ++ [ConsoleError (ErrorArchiving e)]));
      [|exact Htrace|exact Hend].
    apply Forall_app. split; [exact Hquiet|now repeat constructor].
  - unfold finish.
    rewrite (try_finally_exited _ _ s t s' code).
    + cbn. split; [now apply Hcode|exact Hquiet].
    + apply try_catch_exited. now apply bind_exited.
Qed.

(** X5. The connection is closed exactly when the process is not ended by
    [process.exit]: a run that exits does so with status 1 and makes no
    disconnect call; any other run makes one, after everything else. *)
Theorem disconnects_unless_exited w convs :
  match ending (run w convs) with
  | Exited code =>
      code = 1%Z
      /\ Forall (fun e => is_disconnect e = false) (trace (run w convs))
  | _ =>
      exists t,
        Forall (fun e => is_disconnect e = false) t
        /\ trace (run w convs) =
           t ++ Db Disconnect
             :: (if fails w Disconnect then []
                 else [ConsoleLog DisconnectedFromMongoDB])
  end.
Proof.
  destruct (fails w Connect) eqn:Hconnect.
  - assert (Hbody :
      try_catch
        (call w Connect >> console_log ConnectedToMongoDB >>
         when (Nat.eqb (length (usernamesToArchive w)) 0)
              (console_error PleaseProvideUsername >> exit 1) >>
         for_of (usernamesToArchive w) (archive_user w) >>
         console_log ArchivingCompleted)
        (fun error => console_error (ErrorArchiving error)) (initial convs)
      = Result [Db Connect; ConsoleError (ErrorArchiving DbError)]
               (initial convs) (Returned tt)).
    { unfold try_catch.
      rewrite (bind_thrown _ _ (initial convs) [Db Connect] (initial convs) DbError)
        by now apply call_fails.
      reflexivity. }
    destruct (closes_after _ w _ _ _ _ Hbody) as [Htrace Hend]; [discriminate|].
    apply (disconnect_discipline _ w [Db Connect; ConsoleError (ErrorArchiving DbError)]);
      [now repeat constructor|exact Htrace|exact Hend].
  - destruct (usernamesToArchive w) as [|name rest] eqn:Hargs.
    + rewrite (no_username_given_run w convs Hargs Hconnect). cbn.
      split; [reflexivity|repeat constructor].
    + rewrite run_enters_loop; [|assumption|now rewrite Hargs].
      rewrite Hargs. cbn [prepend ending trace].
      pose proof (finish_discipline w (name :: rest) (initial convs)) as Hfinish.
      destruct (ending (finish w (name :: rest) (initial convs))) as [[]|e|code].
      * destruct Hfinish as (t & Hquiet & ->).
        exists ([Db Connect; ConsoleLog ConnectedToMongoDB] ++ t).
        split; [|now rewrite <- List.app_assoc].
        apply Forall_app. split; [now repeat constructor|exact Hquiet].
      * destruct Hfinish as (t & Hquiet & ->).
        exists ([Db Connect; ConsoleLog ConnectedToMongoDB] ++ t).
        split; [|now rewrite <- List.app_assoc].
        apply Forall_app. split; [now repeat constructor|exact Hquiet].
      * destruct Hfinish as [-> Hquiet]. split; [reflexivity|].
        apply Forall_app. split; [now repeat constructor|exact Hquiet].
Qed.

(** *** What the script changes *)

Lemma selected_ids_nil userId before (convs : gmap string conversation) :
  (forall id c, convs !! id = Some c -> selected userId before c = false) ->
  selected_ids userId before convs = [].
Proof.
  intros Hnone. destruct (selected_ids userId before convs) as [|id ids] eqn:Hids;
    [reflexivity|].
  assert (Hin : id ∈ selected_ids userId before convs)
    by (rewrite Hids; apply list_elem_of_In; now left).
  apply elem_of_selected_ids in Hin as (c & Hc & Hsel).
  rewrite (Hnone id c Hc) in Hsel. discriminate.
Qed.

(** X6. A user who is found and has no conversation that is at once
    theirs, older than the threshold and not archived gets the notice that
    there is nothing to archive: no update is made, in dry-run mode or not,
    and the loop goes on to the next username. *)
Theorem nothing_to_archive w name u s :
  valid_username name = true ->
  fails w (FindUser name) = false ->
  List.find (fun u => String.eqb (username u) name) (users w) = Some u ->
  fails w (FindConversations (_id u) (dateThreshold w (clock w (clock_reads s)))) = false ->
  (forall id c,
      conversations s !! id = Some c ->
      selected (_id u) (dateThreshold w (clock w (clock_reads s))) c = false) ->
  archive_user w name s =
  Result [ Db (FindUser name); ConsoleLog (ProcessingConversations name (_id u));
           Db (FindConversations (_id u) (dateThreshold w (clock w (clock_reads s))));
           ConsoleLog (NoConversationsToArchive name) ]
         (tick s) (Returned tt).
Proof.
  intros Hvalid Hlookup Hfound Hfind Hnone.
  rewrite archive_user_cases, Hvalid, Hlookup, Hfound. cbv zeta.
  rewrite Hfind, (selected_ids_nil _ _ _ Hnone). reflexivity.
Qed.

Lemma nothing_to_archive_witness :
  let s :=
    {| conversations :=
         {[ "c2" := {| user := "u1"; updatedAt := Some (day 95);
                       isArchived := Some false |} ]};
       clock_reads := 0 |} in
  ending (archive_user (example_world ["alice"]) "alice" s) = Returned tt.
Proof.
  cbv zeta.
  rewrite (nothing_to_archive (example_world ["alice"]) "alice"
             {| _id := "u1"; username := "alice" |}); try reflexivity.
  intros id c Hc. cbn [conversations] in Hc.
  apply lookup_singleton_Some in Hc as [<- <-]. reflexivity.
Defined.

Lemma keeps_for_of_in {S E A} (R : S -> S -> Prop) (P : E -> Prop)
      (xs : list A) (body : A -> M S E unit) :
  (forall s, R s s) ->
  (forall s1 s2 s3, R s1 s2 -> R s2 s3 -> R s1 s3) ->
  (forall x, In x xs -> keeps R P (body x)) ->
  keeps R P (for_of xs body).
Proof.
  intros R_refl R_trans. induction xs as [|x xs IH]; intros Hbody; cbn [for_of].
  - now apply keeps_ret.
  - apply keeps_bind; [exact R_trans|apply Hbody; now left|intros _].
    apply IH. intros y Hy. apply Hbody. now right.
Qed.

(** The whole function, given what its loop body keeps on the usernames of
    the command line. *)
Lemma keeps_archiveOldConversations_in (R : store -> store -> Prop) w :
  (forall s, R s s) ->
  (forall s1 s2 s3, R s1 s2 -> R s2 s3 -> R s1 s3) ->
  (forall name, In name (usernamesToArchive w) ->
                keeps R (fun _ => True) (archive_user w name)) ->
  keeps R (fun _ => True) (archiveOldConversations w).
Proof.
  intros R_refl R_trans Hbody. unfold archiveOldConversations.
  apply keeps_try_finally; [exact R_trans| |].
  - apply keeps_try_catch; [exact R_trans| |intros e].
    + apply keeps_bind; [exact R_trans|now apply keeps_call|intros _].
      apply keeps_bind; [exact R_trans|now apply keeps_console_log|intros _].
      apply keeps_bind; [exact R_trans| |intros _].
      { apply keeps_when; [exact R_refl|].
        apply keeps_bind; [exact R_trans| |intros _].
        - now apply keeps_console_error.
        - now apply keeps_exit. }
      apply keeps_bind; [exact R_trans| |intros _].
      * now apply keeps_for_of_in.
      * now apply keeps_console_log.
    + now apply keeps_console_error.
  - apply keeps_bind; [exact R_trans| |intros _].
    + now apply keeps_call.
    + now apply keeps_console_log.
Qed.

Lemma archive_user_untouched w name id c :
  (forall u, In u (users w) -> username u = name -> _id u <> user c) ->
  keeps (untouched id c) (fun _ => True) (archive_user w name).
Proof.
  intros Hother s. split; [|apply Forall_forall; auto].
  intros Hc. rewrite archive_user_cases.
  destruct (negb _); [exact Hc|].
  destruct (fails w (FindUser name)); [exact Hc|].
  destruct (List.find _ (users w)) as [u|] eqn:Hfound; [|exact Hc].
  cbv zeta.
  destruct (fails w (FindConversations _ _)); [exact Hc|].
  destruct (Nat.eqb _ 0); [exact Hc|].
  destruct (DRY_RUN w); [exact Hc|].
  destruct (fails w (UpdateMany _)); [exact Hc|].
  cbn [state]. rewrite flagged_lookup. cbn [tick conversations]. rewrite Hc.
  cbn. f_equal.
  rewrite bool_decide_eq_false_2; [reflexivity|].
  intros (c' & Hc' & Hsel)%elem_of_selected_ids.
  assert (c' = c) as -> by congruence.
  apply selected_spec in Hsel as (Huser & _).
  apply find_some in Hfound as [Hin Hname].
  apply String.eqb_eq in Hname.
  exact (Hother u Hin Hname (eq_sym Huser)).
Qed.

(** X8. A run touches only the conversations of the users it is given: a
    conversation whose owner is no user named on the command line is, at
    the end of the run, exactly what it was. *)
Theorem other_users_conversations_untouched w convs id c :
  convs !! id = Some c ->
  (forall u, In u (users w) ->
             In (username u) (usernamesToArchive w) ->
             _id u <> user c) ->
  conversations (state (run w convs)) !! id = Some c.
Proof.
  intros Hc Hother.
  assert (H : keeps (untouched id c) (fun _ => True) (archiveOldConversations w)).
  { apply keeps_archiveOldConversations_in.
    - intros s H. exact H.
    - intros s1 s2 s3 H12 H23 H. apply H23, H12, H.
    - intros name Hname. apply archive_user_untouched.
      intros u Hin <-. now apply Hother. }
  exact (proj1 (H (initial convs)) Hc).
Qed.

Lemma other_users_conversations_untouched_witness :
  conversations (state (run (example_world ["alice"]) example_conversations)) !! "c4"
  = Some {| user := "u2"; updatedAt := Some (day 1); isArchived := Some false |}.
Proof.
  apply (other_users_conversations_untouched (example_world ["alice"])
           example_conversations "c4"); [reflexivity|].
  intros u [<-|[<-|[]]] Hname; cbn in Hname |- *.
  - discriminate.
  - destruct Hname as [Hname|[]]. discriminate Hname.
Defined.

(** X9. What a query finds after the bulk update: once the conversations
    selected for a user with a threshold have been updated, the query for
    that user with any threshold selects exactly the conversations it
    selected before the update less those the update was made on. With
    the same threshold or an earlier one it selects none; with a later
    one, as in a later run, it selects those of the user that were inside
    the window of the first and are outside that of the second. *)
Theorem update_leaves_nothing_to_select userId before before' s :
  let updated :=
    conversations (flagged (selected_ids userId before (conversations s)) s) in
  (forall id,
      id ∈ selected_ids userId before' updated <->
      id ∈ selected_ids userId before' (conversations s)
      /\ id ∉ selected_ids userId before (conversations s))
  /\ ((before' <= before)%Z -> selected_ids userId before' updated = [])
  /\ (forall id,
         id ∈ selected_ids userId before' updated <->
         exists c t,
           conversations s !! id = Some c
           /\ user c = userId
           /\ updatedAt c = Some t
           /\ (before <= t < before')%Z
           /\ isArchived c <> Some true).
Proof.
  cbv zeta.
  assert (Hdiff : forall id,
             id ∈ selected_ids userId before'
                    (conversations
                       (flagged (selected_ids userId before (conversations s)) s)) <->
             id ∈ selected_ids userId before' (conversations s)
             /\ id ∉ selected_ids userId before (conversations s)).
  { intros id. rewrite !elem_of_selected_ids. split.
    - intros (c' & Hc' & Hsel').
      rewrite (flagged_selected_lookup userId before s s id eq_refl) in Hc'.
      destruct (conversations s !! id) as [c|] eqn:Hc; [|discriminate Hc'].
      cbn in Hc'. injection Hc' as <-. unfold flag_if_selected in Hsel'.
      destruct (selected userId before c) eqn:Hsel.
      + unfold selected in Hsel'. cbn [set_isArchived isArchived] in Hsel'.
        rewrite bool_decide_eq_true_2, andb_false_r in Hsel' by reflexivity.
        discriminate Hsel'.
      + split; [eauto|]. intros (c2 & Hc2 & Hsel2). congruence.
    - intros [(c & Hc & Hsel') Hnot]. exists c. split; [|exact Hsel'].
      rewrite (flagged_selected_lookup userId before s s id eq_refl), Hc.
      cbn. f_equal. unfold flag_if_selected.
      destruct (selected userId before c) eqn:Hsel; [|reflexivity].
      destruct Hnot. eauto. }
  split; [exact Hdiff|]. split.
  - intros Hle. apply selected_ids_nil. intros id c' Hc'.
    destruct (selected userId before' c') eqn:Hsel'; [|reflexivity].
    assert (Hin : id ∈ selected_ids userId before'
                         (conversations
                            (flagged (selected_ids userId before (conversations s)) s)))
      by (apply elem_of_selected_ids; eauto).
    apply Hdiff in Hin as [(c & Hc & Hsel)%elem_of_selected_ids Hnot].
    destruct Hnot. apply elem_of_selected_ids. exists c. split; [exact Hc|].
    apply selected_spec in Hsel as (Huser & (t & Ht & Hlt) & Harchived).
    apply selected_spec. repeat split; try assumption.
    exists t. split; [assumption|lia].
  - intros id. rewrite Hdiff, !elem_of_selected_ids. split.
    + intros [(c & Hc & Hsel) Hnot].
      apply selected_spec in Hsel as (Huser & (t & Ht & Hlt) & Harchived).
      exists c, t. repeat split; try assumption.
      destruct (Z.lt_ge_cases t before) as [Hold|Hrecent]; [|exact Hrecent].
      destruct Hnot. exists c. split; [exact Hc|].
      apply selected_spec. repeat split; try assumption. eauto.
    + intros (c & t & Hc & Huser & Ht & [Hge Hlt] & Harchived). split.
      * exists c. split; [exact Hc|]. apply selected_spec.
        repeat split; try assumption. eauto.
      * intros (c2 & Hc2 & Hsel2).
        assert (c2 = c) as -> by congruence.
        apply selected_spec in Hsel2 as (_ & (t2 & Ht2 & Hlt2) & _).
        assert (t2 = t) as -> by congruence. lia.
Qed.

Lemma update_leaves_nothing_to_select_witness :
  selected_ids "u1" (day 60)
    (conversations
       (flagged (selected_ids "u1" (day 70) example_conversations)
                (initial example_conversations)))
  = []
  /\ selected_ids "u1" (day 70)
       (conversations
          (flagged (selected_ids "u1" (day 70) example_conversations)
                   (initial example_conversations)))
     = []
  /\ selected_ids "u1" (day 96)
       (conversations
          (flagged (selected_ids "u1" (day 70) example_conversations)
                   (initial example_conversations)))
     = ["c2"].
Proof.
  split; [|split; [|reflexivity]].
  - apply (proj1 (proj2 (update_leaves_nothing_to_select
                           "u1" (day 70) (day 60) (initial example_conversations)))).
    vm_compute. discriminate.
  - apply (proj1 (proj2 (update_leaves_nothing_to_select
                           "u1" (day 70) (day 70) (initial example_conversations)))).
    vm_compute. discriminate.
Defined.

End ArchiveMore.

(** ** More on paths *)

Module PathMore.
Import Path PathFacts.

Lemma list_ascii_of_append a b :
  list_ascii_of_string (a +:+ b) = list_ascii_of_string a ++ list_ascii_of_string b.
Proof. induction a as [|ch a IH]; simpl; [reflexivity|now rewrite IH]. Qed.

Lemma no_slash_chars s :
  has_slash s = false ->
  Forall (fun ch => Ascii.eqb ch slash = false) (list_ascii_of_string s).
Proof.
  induction s as [|ch s IH]; [constructor|].
  simpl. intros [Hch Hs]%orb_false_iff. constructor; [exact Hch|exact (IH Hs)].
Qed.

Lemma skip_name_app name rest :
  Forall (fun ch => Ascii.eqb ch slash = false) name ->
  skip_name (name ++ slash :: rest) = Some rest.
Proof.
  induction 1 as [|ch name Hch _ IH]; [reflexivity|].
  cbn [app skip_name]. now rewrite Hch.
Qed.

Lemma skip_trailing_app name rest :
  name <> [] ->
  Forall (fun ch => Ascii.eqb ch slash = false) name ->
  skip_trailing (name ++ slash :: rest) = Some rest.
Proof.
  intros Hne Hname. destruct Hname as [|ch name Hch Hname]; [contradiction|].
  cbn [app skip_trailing]. rewrite Hch. now apply skip_name_app.
Qed.

(** The directory of a file put under a relative directory is that
    directory. *)
Lemma dirname_of_file c0 dir file :
  Ascii.eqb c0 slash = false ->
  has_slash file = false ->
  String.eqb file "" = false ->
  dirname (String c0 dir +:+ String slash file) = String c0 dir.
Proof.
  intros Hc0 Hfile Hne.
  change (String c0 dir +:+ String slash file)
    with (String c0 (dir +:+ String slash file)).
  unfold dirname. rewrite Hc0, list_ascii_of_append.
  cbn [list_ascii_of_string]. rewrite rev_app_distr. cbn [rev].
  rewrite <- List.app_assoc. cbn [app].
  rewrite skip_trailing_app.
  - rewrite rev_involutive, string_of_list_ascii_of_string.
    destruct (rev (list_ascii_of_string dir)) as [|ch before] eqn:Hrev;
      [|reflexivity].
    apply (f_equal (@rev ascii)) in Hrev. rewrite rev_involutive in Hrev.
    cbn in Hrev. destruct dir; [reflexivity|discriminate Hrev].
  - destruct file as [|ch file]; [discriminate Hne|].
    cbn [list_ascii_of_string rev]. now destruct (rev (list_ascii_of_string file)).
  - apply Forall_rev. now apply no_slash_chars.
Qed.

Lemma append_associative a b c : (a +:+ b) +:+ c = a +:+ (b +:+ c).
Proof.
  induction a as [|ch a IH]; [reflexivity|].
  change (String ch ((a +:+ b) +:+ c) = String ch (a +:+ (b +:+ c))).
  now rewrite IH.
Qed.

End PathMore.

(** ** More on the export script *)

Module ExportMore.
Import Script ScriptFacts ExportScript ExportFacts ExportFiles.
Local Open Scope script_scope.

Section WithMessages.
Context {message : Type} (JSON_stringify : list message -> string).
Implicit Types (w : world message).

(** X10. Whatever fails, the export of a user's conversations closes the
    connection as its last action, once, and returns; it reports at most
    one error, and when it does nothing more is read or written for that
    user: the report is followed by the closing of the connection only. *)
Theorem export_of_a_user_closes w userId :
  let r := exportUserConversations JSON_stringify w userId None in
  ending r = Returned tt
  /\ exists t,
      Forall (fun e => is_calm e = true) t
      /\ (trace r = t ++ [Io Disconnect]
          \/ exists e, trace r = t ++ [ConsoleError (ErrorExporting e); Io Disconnect]).
Proof.
  cbv zeta. split; [apply exportUserConversations_returns|].
  unfold exportUserConversations.
  pose proof (exportUserConversations_body_calm JSON_stringify w userId) as Hbody.
  match goal with |- context [try_catch ?b _] => set (body := b) in * end.
  clearbody body. destruct Hbody as (_ & Hexit & Hcalm).
  rewrite guarded_run. cbv zeta.
  exists (trace (body None)). split; [exact Hcalm|].
  destruct (ending (body None)) as [[]|e|code] eqn:Hend; cbn [trace].
  - now left.
  - right. now exists e.
  - now destruct (Hexit code).
Qed.

(** X11. A user who owns no conversation is passed over with a notice:
    the conversations are asked for, nothing else is read, no directory
    is made and no file is written. *)
Theorem user_without_conversations w userId :
  fails w Connect = false ->
  fails w (FindConversations userId) = false ->
  (forall c, In c (conversations w) -> user c <> userId) ->
  exportUserConversations JSON_stringify w userId None =
  Result [ Io Connect; Io (FindConversations userId);
           ConsoleLog (NoConversationsFound userId); Io Disconnect ]
         (if fails w Disconnect then Some (grace w) else None)
         (Returned tt).
Proof.
  intros Hconnect Hfind Hnone. unfold exportUserConversations.
  rewrite guarded_run. cbv zeta.
  rewrite (bind_returned _ _ _ _ _ _ (io_call_run w Connect Hconnect)).
  rewrite (bind_returned _ _ _ _ _ _ (io_call_run w _ Hfind)).
  assert (Hfilter : List.filter (fun c => String.eqb (user c) userId)
                                (conversations w) = []).
  { induction (conversations w) as [|c cs IH]; [reflexivity|].
    cbn [List.filter].
    destruct (String.eqb_spec (user c) userId) as [Heq|_].
    - destruct (Hnone c (or_introl eq_refl) Heq).
    - apply IH. intros c' Hc'. apply Hnone. now right. }
  rewrite Hfilter. reflexivity.
Qed.

(** *** The files of a run in which nothing fails *)

Lemma written_app (t1 t2 : list event) :
  written (t1 ++ t2) = written t1 ++ written t2.
Proof. unfold written. apply flat_map_app. Qed.

Lemma written_flat_map {A} (f : A -> list event) xs :
  written (flat_map f xs) = flat_map (fun x => written (f x)) xs.
Proof.
  induction xs as [|x xs IH]; [reflexivity|].
  cbn [flat_map]. now rewrite written_app, IH.
Qed.

Lemma flat_map_agree {A B} (f g : A -> list B) xs :
  (forall x, In x xs -> f x = g x) -> flat_map f xs = flat_map g xs.
Proof.
  induction xs as [|x xs IH]; intros H; [reflexivity|].
  cbn [flat_map]. rewrite (H x (or_introl eq_refl)), IH; [reflexivity|].
  intros y Hy. apply H. now right.
Qed.

(** A conversation with a title, when no call fails. *)
Lemma export_conversation_clean w userId c t :
  (forall call, fails w call = false) ->
  title c = Some t ->
  ending (export_conversation JSON_stringify w userId c None) = Returned tt
  /\ state (export_conversation JSON_stringify w userId c None) = None
  /\ written (trace (export_conversation JSON_stringify w userId c None))
     = file_of JSON_stringify w userId c.
Proof.
  intros Hclean Htitle. unfold export_conversation, file_of.
  rewrite Htitle, ret_bind.
  rewrite (bind_returned _ _ _ _ _ _ (io_call_run w _ (Hclean _))).
  destruct (messages w (conversationId c)) as [|m msgs]; [now repeat split|].
  cbn [length Nat.eqb].
  rewrite (bind_returned _ _ _ _ _ _ (io_call_run w _ (Hclean _))).
  rewrite (bind_returned _ _ _ _ _ _ (io_call_run w _ (Hclean _))).
  rewrite (bind_returned _ _ _ _ _ _ (io_call_run w _ (Hclean _))).
  now repeat split.
Qed.

Lemma exportUserConversations_clean w userId :
  (forall call, fails w call = false) ->
  (forall c, In c (conversations w) -> title c <> None) ->
  written (trace (exportUserConversations JSON_stringify w userId None))
  = files_of_user JSON_stringify w userId.
Proof.
  intros Hclean Htitles. unfold exportUserConversations, files_of_user.
  set (found := List.filter (fun c => String.eqb (user c) userId) (conversations w)).
  assert (Hfound : forall c, In c found -> exists t, title c = Some t).
  { intros c [Hc _]%filter_In. specialize (Htitles c Hc).
    destruct (title c) as [t|]; [eauto|contradiction]. }
  assert (Hloop : for_of found (export_conversation JSON_stringify w userId) None
                  = Result (flat_map (fun c => trace (export_conversation
                                                        JSON_stringify w userId c None))
                                     found) None (Returned tt)).
  { apply for_of_settled_returns. intros c Hc. destruct (Hfound c Hc) as [t Ht].
    destruct (export_conversation_clean w userId c t Hclean Ht) as (He & Hs & _).
    now split. }
  assert (Hbody :
    exists t, written t = flat_map (file_of JSON_stringify w userId) found
              /\ (call w Connect >> call w (FindConversations userId) >>
                  (if Nat.eqb (length found) 0
                   then console_log (NoConversationsFound userId)
                   else for_of found (export_conversation JSON_stringify w userId)))
                   None
                 = Result t None (Returned tt)).
  { destruct found as [|c0 found'] eqn:Hshape.
    - exists [Io Connect; Io (FindConversations userId);
              ConsoleLog (NoConversationsFound userId)].
      split; [reflexivity|].
      rewrite (bind_returned _ _ _ _ _ _ (io_call_run w _ (Hclean _))).
      rewrite (bind_returned _ _ _ _ _ _ (io_call_run w _ (Hclean _))).
      reflexivity.
    - exists ([Io Connect; Io (FindConversations userId)]
                ++ flat_map (fun c => trace (export_conversation
                                               JSON_stringify w userId c None))
                            (c0 :: found')).
      split.
      + rewrite written_app, written_flat_map.
        replace (written [Io Connect; Io (FindConversations userId)])
          with (@nil (string * string)) by reflexivity.
        cbn [app]. apply flat_map_agree.
        intros c Hc. destruct (Hfound c Hc) as [t Ht].
        apply (export_conversation_clean w userId c t Hclean Ht).
      + rewrite (bind_returned _ _ _ _ _ _ (io_call_run w _ (Hclean _))).
        rewrite (bind_returned _ _ _ _ _ _ (io_call_run w _ (Hclean _))).
        cbn [length Nat.eqb]. rewrite Hloop. reflexivity. }
  destruct Hbody as (t & Hwritten & Hrun).
  rewrite guarded_run. cbv zeta. fold found. rewrite Hrun.
  cbn [ending trace]. rewrite written_app, Hwritten. cbn. apply app_nil_r.
Qed.

(** X12. In a run in which no call fails and every conversation has a
    title, the files written are, user after user in the order of the
    users collection, one for each conversation of the user that has
    messages, in the order of the conversations collection: each at the
    path joined from the export root, the username and the file name of the
    conversation, each holding the messages of the conversation. *)
Theorem files_of_a_clean_run w :
  (forall call, fails w call = false) ->
  (forall c, In c (conversations w) -> title c <> None) ->
  written (trace (main JSON_stringify w))
  = flat_map (fun u => files_of_user JSON_stringify w (_id u)) (users w).
Proof.
  intros Hclean Htitles.
  rewrite (main_run JSON_stringify w _ _
             (exportAllUsers_run JSON_stringify w
                (Hclean _) (Hclean _) (Hclean _))).
  cbn [trace].
  rewrite !written_app, written_flat_map.
  replace (written [Io Connect; Io ListUsers])
    with (@nil (string * string)) by reflexivity.
  replace (written [Io Disconnect]) with (@nil (string * string)) by reflexivity.
  replace (written [ConsoleLog FinishedExporting])
    with (@nil (string * string)) by reflexivity.
  cbn [app]. rewrite !app_nil_r. apply flat_map_agree.
  intros u _. now apply exportUserConversations_clean.
Qed.

(** *** How the script ends *)

(** X13. How the script ends. When no disconnect is rejected, the script
    neither throws nor ends the process, whatever else fails: it closes
    the connection and then prints that it has finished exporting, as its
    last line. When the disconnect is rejected, which no part of the
    script waits for or handles, the process ends with status 1
    whatever else happens. *)
Theorem script_always_reports_completion w :
  (fails w Disconnect = false ->
   exists t,
     main JSON_stringify w =
     Result (t ++ [Io Disconnect; ConsoleLog FinishedExporting]) None
            (Returned tt))
  /\ (fails w Disconnect = true ->
      ending (main JSON_stringify w) = Exited 1).
Proof.
  split; [|apply rejected_disconnect_ends_process].
  intros Hdisconnect.
  assert (Hbody : settled (fun _ => True)
                          (call w Connect >> call w ListUsers >>
                           for_of (users w)
                                  (fun u => exportUserConversations
                                              JSON_stringify w (_id u)))).
  { apply settled_bind; [now apply settled_call|intros _].
    apply settled_bind; [now apply settled_call|intros _].
    apply settled_for_of. intros u _.
    now apply exportUserConversations_settled. }
  destruct Hbody as (Hstate & Hexit & _).
  assert (Hrun : exists t,
             exportAllUsers JSON_stringify w None =
             Result (t ++ [Io Disconnect]) None (Returned tt)).
  { unfold exportAllUsers. rewrite guarded_run. cbv zeta.
    rewrite Hdisconnect, Hstate.
    destruct (ending _) as [[]|e|code] eqn:Hend.
    - eauto.
    - eexists (_ ++ [_]). now rewrite <- List.app_assoc.
    - now destruct (Hexit code). }
  destruct Hrun as [t Hrun]. exists t.
  rewrite (main_run JSON_stringify w _ _ Hrun).
  now rewrite <- List.app_assoc.
Qed.

(** X14. When the connection cannot be opened, or the users cannot be
    listed, no user is processed and nothing is written; the error is
    reported, the connection is closed, and the script prints that it has
    finished exporting all the same. (The process then ends with status
    1 when that disconnect is rejected, and returns otherwise.) *)
Theorem nothing_exported_without_users w :
  (fails w Connect = true ->
   exists e,
     trace (main JSON_stringify w) =
     [ Io Connect; ConsoleError (ErrorFetchingUsers e); Io Disconnect;
       ConsoleLog FinishedExporting ]
     /\ ending (main JSON_stringify w) =
        if fails w Disconnect then Exited 1 else Returned tt)
  /\ (fails w Connect = false ->
      fails w ListUsers = true ->
      exists e,
        trace (main JSON_stringify w) =
        [ Io Connect; Io ListUsers; ConsoleError (ErrorFetchingUsers e);
          Io Disconnect; ConsoleLog FinishedExporting ]
        /\ ending (main JSON_stringify w) =
           if fails w Disconnect then Exited 1 else Returned tt).
Proof.
  split.
  - intros Hconnect.
    destruct (exportAllUsers_aborts JSON_stringify w (or_introl Hconnect))
      as [e Hrun].
    rewrite Hconnect in Hrun.
    exists e. rewrite (main_run JSON_stringify w _ _ Hrun).
    split; [reflexivity|]. cbn [ending]. now destruct (fails w Disconnect).
  - intros Hconnect Hlist.
    destruct (exportAllUsers_aborts JSON_stringify w (or_intror Hlist))
      as [e Hrun].
    rewrite Hconnect in Hrun.
    exists e. rewrite (main_run JSON_stringify w _ _ Hrun).
    split; [reflexivity|]. cbn [ending]. now destruct (fails w Disconnect).
Qed.

(** *** The file name *)

(** X15. The sanitized title holds none of the ten special characters, and
    so no path separator; it is as long as the title; a title without
    special characters is its own sanitized form, and sanitizing twice is
    sanitizing once. *)
Theorem sanitized_title_is_safe t :
  Forall (fun ch => is_special ch = false) (list_ascii_of_string (sanitize t))
  /\ Path.has_slash (sanitize t) = false
  /\ String.length (sanitize t) = String.length t
  /\ sanitize (sanitize t) = sanitize t
  /\ (Forall (fun ch => is_special ch = false) (list_ascii_of_string t) ->
      sanitize t = t).
Proof.
  split; [|split; [apply has_slash_sanitize|split; [|split]]].
  - induction t as [|ch t IH]; [constructor|].
    cbn [sanitize list_ascii_of_string]. constructor; [|exact IH].
    destruct (is_special ch) eqn:Hch; [reflexivity|exact Hch].
  - induction t as [|ch t IH]; [reflexivity|]. cbn [sanitize String.length].
    now rewrite IH.
  - induction t as [|ch t IH]; [reflexivity|]. cbn [sanitize]. rewrite IH.
    destruct (is_special ch) eqn:Hch; [reflexivity|now rewrite Hch].
  - induction t as [|ch t IH]; [reflexivity|].
    cbn [sanitize list_ascii_of_string]. intros Hclean.
    inversion Hclean as [|? ? Hch Hrest]; subst.
    now rewrite Hch, (IH Hrest).
Qed.

(** X16. For a username that is a plain directory name, and a model and a
    conversation identifier without separator, the directory made before
    the file is written is the directory of the user under the export
    root. *)
Theorem directory_made_is_the_users userName t c :
  Path.is_name userName = true ->
  Path.has_slash (interpolate (model c)) = false ->
  Path.has_slash (conversationId c) = false ->
  Path.dirname (exportPath_of userName (sanitize t) c)
  = exportDir +:+ "/" +:+ userName.
Proof.
  intros Hname Hmodel Hid.
  pose proof (fileName_is_name t c Hmodel Hid) as Hfile.
  unfold exportPath_of.
  rewrite (PathFacts.join_names exportDir userName _ eq_refl Hname Hfile).
  apply PathFacts.is_name_inv in Hfile as (Hslash & Hempty & _ & _).
  change (exportDir +:+ "/" +:+ userName +:+ "/" +:+ fileName (sanitize t) c)
    with (String "e" ("xport/" +:+ (userName +:+ String Path.slash
                                               (fileName (sanitize t) c)))).
  rewrite <- PathMore.append_associative.
  exact (PathMore.dirname_of_file "e" ("xport/" +:+ userName) _
           eq_refl Hslash Hempty).
Qed.

End WithMessages.

Lemma directory_made_is_the_users_witness :
  Path.dirname
    (exportPath_of "bob" (sanitize "Q&A: 50%/100%?")
       {| user := "u2"; conversationId := "c2";
          title := Some "Q&A: 50%/100%?"; model := Some "gpt-4" |})
  = "export/bob".
Proof.
  apply (directory_made_is_the_users "bob" "Q&A: 50%/100%?"
           {| user := "u2"; conversationId := "c2";
              title := Some "Q&A: 50%/100%?"; model := Some "gpt-4" |});
    reflexivity.
Defined.

Lemma nothing_exported_without_users_witness :
  written (trace (main example_stringify (example_world connection_fails))) = [].
Proof.
  destruct (proj1 (nothing_exported_without_users
                     example_stringify (example_world connection_fails))
                  eq_refl) as (e & -> & _).
  reflexivity.
Defined.

Lemma script_always_reports_completion_witness :
  (exists t,
      main example_stringify (example_world messages_of_c1_fail) =
      Result (t ++ [Io Disconnect; ConsoleLog FinishedExporting]) None
             (Returned tt))
  /\ ending (main example_stringify (example_world disconnect_fails)) = Exited 1.
Proof.
  split.
  - apply (proj1 (script_always_reports_completion
                    example_stringify (example_world messages_of_c1_fail))).
    reflexivity.
  - apply (proj2 (script_always_reports_completion
                    example_stringify (example_world disconnect_fails))).
    reflexivity.
Defined.

Lemma files_of_a_clean_run_witness :
  written (trace (main example_stringify (example_world nothing_fails))) =
  [ ("export/ann/Plans--gpt-4-c1.json", "[{}]");
    ("export/bob/Q&A- 50--100----gpt-4-c2.json", "[{}]");
    ("export/Notes--gpt-4-c3.json", "[{}]") ].
Proof.
  rewrite (files_of_a_clean_run example_stringify (example_world nothing_fails)).
  - vm_compute. reflexivity.
  - reflexivity.
  - intros c [<-|[<-|[<-|[]]]]; discriminate.
Defined.

Lemma user_without_conversations_witness :
  written (trace (exportUserConversations example_stringify
                    example_world_without_conversations "u1" None)) = [].
Proof.
  rewrite (user_without_conversations example_stringify
             example_world_without_conversations "u1");
    [reflexivity|reflexivity|reflexivity|intros c []].
Defined.

End ExportMore.

(** ** More on the renderer *)

Module RenderMore.
Import Render RenderFacts Nodes WidgetEvents.

(** *** The flattener on React nodes *)

Lemma collect_normal (rs : list (completion string)) (texts : list string) :
  Forall2 (fun r t => r = Normal t) rs texts -> collect rs = Normal texts.
Proof.
  induction 1 as [|r t rs texts Hr _ IH]; [reflexivity|].
  cbn [collect]. now rewrite Hr, IH.
Qed.

(** X17. On a React node (no plain object anywhere the flattener goes) the
    flattener never throws, and what it returns is the text of the leaves
    of the node from left to right: strings and numbers as they are,
    booleans as [true] and [false], and nothing for [null], [undefined]
    and an element without children. *)
Theorem processContent_of_react_node :
  forall node, react_node node = true -> processContent node = Normal (text_of node).
Proof.
  fix IH 1.
  intros [| |b|shown|s|items|props|fields] Hnode; try reflexivity.
  - now destruct b.
  - cbn [processContent text_of].
    rewrite (collect_normal (map processContent items) (map text_of items));
      [reflexivity|].
    cbn [react_node] in Hnode.
    induction items as [|x items IHitems]; [constructor|].
    cbn [forallb] in Hnode. apply andb_true_iff in Hnode as [Hx Hitems].
    cbn [map]. constructor; [exact (IH x Hx)|exact (IHitems Hitems)].
  - cbn [processContent text_of react_node] in *.
    induction props as [|[k x] props IHprops]; [reflexivity|].
    cbn [with_key] in *.
    destruct (String.eqb "children" k); [exact (IH x Hnode)|exact (IHprops Hnode)].
  - discriminate Hnode.
Qed.

Lemma processContent_of_react_node_witness :
  processContent
    (VArr [ VStr "const x = "; VElem [("className", VStr "hljs-number");
                                      ("children", VArr [VNum "1"; VNull])];
            VElem []; VStr ";" ])
  = Normal "const x = 1;".
Proof.
  apply (processContent_of_react_node
           (VArr [ VStr "const x = "; VElem [("className", VStr "hljs-number");
                                             ("children", VArr [VNum "1"; VNull])];
                   VElem []; VStr ";" ])).
  reflexivity.
Defined.

(** *** Arrays and elements *)

Lemma collect_app (rs1 rs2 : list (completion string)) :
  collect (rs1 ++ rs2) =
  cbind (collect rs1) (fun xs =>
    cbind (collect rs2) (fun ys => Normal (xs ++ ys))).
Proof.
  induction rs1 as [|r rs1 IH].
  - cbn [app collect cbind]. now destruct (collect rs2).
  - cbn [app collect]. rewrite IH.
    destruct r as [x|e]; [|reflexivity]. cbn [cbind].
    destruct (collect rs1) as [xs|e]; [|reflexivity]. cbn [cbind].
    now destruct (collect rs2).
Qed.

Lemma join_empty_cons x parts : join "" (x :: parts) = x +:+ join "" parts.
Proof.
  destruct parts as [|y parts]; [|reflexivity].
  cbn [join]. induction x as [|c x IH]; [reflexivity|].
  change (String c x = String c (x +:+ "")). now f_equal.
Qed.

Lemma join_empty_app parts1 parts2 :
  join "" (parts1 ++ parts2) = join "" parts1 +:+ join "" parts2.
Proof.
  induction parts1 as [|x parts1 IH]; [reflexivity|].
  change ((x :: parts1) ++ parts2) with (x :: (parts1 ++ parts2)).
  rewrite !join_empty_cons, IH. symmetry. apply PathMore.append_associative.
Qed.

Lemma processContent_app items1 items2 :
  processContent (VArr (items1 ++ items2)) =
  cbind (processContent (VArr items1)) (fun x =>
    cbind (processContent (VArr items2)) (fun y => Normal (x +:+ y))).
Proof.
  cbn [processContent]. rewrite map_app, collect_app.
  destruct (collect (map processContent items1)) as [xs|e]; [|reflexivity].
  cbn [cbind].
  destruct (collect (map processContent items2)) as [ys|e]; [|reflexivity].
  cbn [cbind]. now rewrite join_empty_app.
Qed.

(** X18. The flattener does not see how its input is bracketed: the text of
    a concatenation of two arrays is the text of the first followed by the
    text of the second (the exception of the first winning, then that of
    the second); an array of two arrays gives what the one array of all
    their items gives; an array of one item gives what the item gives; and
    an element with children gives what its children give. *)
Theorem processContent_ignores_nesting :
  (forall items1 items2,
      processContent (VArr (items1 ++ items2)) =
      cbind (processContent (VArr items1)) (fun x =>
        cbind (processContent (VArr items2)) (fun y => Normal (x +:+ y))))
  /\ (forall items1 items2,
         processContent (VArr [VArr items1; VArr items2]) =
         processContent (VArr (items1 ++ items2)))
  /\ (forall item, processContent (VArr [item]) = processContent item)
  /\ (forall props children,
         get_key "children" props = Some children ->
         processContent (VElem props) = processContent children).
Proof.
  split; [exact processContent_app|]. split; [|split].
  - intros items1 items2. rewrite processContent_app.
    change (processContent (VArr [VArr items1; VArr items2]))
      with (cbind (collect [processContent (VArr items1);
                            processContent (VArr items2)])
                  (fun parts => Normal (join "" parts))).
    cbn [collect].
    destruct (processContent (VArr items1)) as [x|e]; [|reflexivity].
    cbn [cbind].
    destruct (processContent (VArr items2)) as [y|e]; reflexivity.
  - intros item.
    change (processContent (VArr [item]))
      with (cbind (collect [processContent item])
                  (fun parts => Normal (join "" parts))).
    cbn [collect]. now destruct (processContent item).
  - intros props children Hget. cbn [processContent].
    induction props as [|[k x] props IH]; [discriminate Hget|].
    cbn [get_key with_key] in *.
    destruct (String.eqb "children" k); [now inversion Hget|exact (IH Hget)].
Qed.

Lemma processContent_ignores_nesting_witness :
  processContent (VElem [("className", VStr "hljs-keyword");
                         ("children", VArr [VStr "let"; VStr " "])])
  = processContent (VArr [VStr "let"; VStr " "]).
Proof.
  apply (proj2 (proj2 (proj2 processContent_ignores_nesting))). reflexivity.
Defined.

(** *** The language tag *)

Lemma strip_prefix_spec p : forall s rest,
  strip_prefix p s = Some rest -> s = p +:+ rest.
Proof.
  induction p as [|a p IH]; intros s rest H.
  - cbn in H. now inversion H.
  - destruct s as [|b s]; [discriminate H|]. cbn [strip_prefix] in H.
    destruct (Ascii.eqb a b) eqn:E; [|discriminate H].
    apply Ascii.eqb_eq in E. subst b.
    change (String a s = String a (p +:+ rest)). f_equal. now apply IH.
Qed.

Lemma strip_prefix_app p rest : strip_prefix p (p +:+ rest) = Some rest.
Proof.
  induction p as [|a p IH]; [now destruct rest|].
  simpl. now rewrite Ascii.eqb_refl.
Qed.

Lemma take_word_spec s :
  exists post, s = take_word s +:+ post
               /\ Tags.word (take_word s) = true
               /\ Tags.word_ends post = true.
Proof.
  induction s as [|c s (post & Heq & Hword & Hends)].
  - exists "". repeat split.
  - cbn [take_word]. destruct (is_word_char c) eqn:Hc.
    + exists post.
      split; [change (String c s = String c (take_word s +:+ post)); now f_equal|].
      split; [|exact Hends].
      unfold Tags.word in *. cbn [list_ascii_of_string forallb].
      now rewrite Hc, Hword.
    + exists (String c s). split; [reflexivity|]. split; [reflexivity|].
      cbn [Tags.word_ends]. now rewrite Hc.
Qed.

Lemma take_word_app w rest :
  Tags.word w = true -> Tags.word_ends rest = true -> take_word (w +:+ rest) = w.
Proof.
  intros Hw Hrest. induction w as [|c w IH].
  - change (take_word rest = ""). destruct rest as [|c rest]; [reflexivity|].
    cbn [Tags.word_ends] in Hrest. cbn [take_word].
    destruct (is_word_char c); [discriminate Hrest|reflexivity].
  - unfold Tags.word in Hw. cbn [list_ascii_of_string forallb] in Hw.
    apply andb_true_iff in Hw as [Hc Hw].
    change (take_word (String c (w +:+ rest)) = String c w).
    cbn [take_word]. rewrite Hc. f_equal. exact (IH Hw).
Qed.

Lemma language_here_spec s tag :
  language_here s = Some tag ->
  exists post, s = "language-" +:+ tag +:+ post
               /\ tag <> "" /\ Tags.word tag = true /\ Tags.word_ends post = true.
Proof.
  unfold language_here. intros H.
  destruct (strip_prefix "language-" s) as [rest|] eqn:Hstrip; [|discriminate H].
  apply strip_prefix_spec in Hstrip.
  destruct (take_word_spec rest) as (post & Heq & Hword & Hends).
  destruct (take_word rest) as [|c w] eqn:Htake; [discriminate H|].
  inversion H; subst tag. exists post.
  split; [now rewrite Hstrip, Heq at 1|]. split; [discriminate|]. now split.
Qed.

Lemma language_match_spec s : forall tag,
  language_match s = Some tag ->
  exists pre post, s = pre +:+ "language-" +:+ tag +:+ post
                   /\ tag <> "" /\ Tags.word tag = true
                   /\ Tags.word_ends post = true.
Proof.
  induction s as [|c s IH]; intros tag H.
  - discriminate H.
  - cbn [language_match] in H.
    destruct (language_here (String c s)) as [w|] eqn:Hhere.
    + inversion H; subst w.
      destruct (language_here_spec _ _ Hhere) as (post & Heq & Hrest).
      exists "", post. split; [exact Heq|exact Hrest].
    + destruct (IH tag H) as (pre & post & Heq & Hrest).
      exists (String c pre), post. split; [|exact Hrest].
      change (String c s = String c (pre +:+ "language-" +:+ tag +:+ post)).
      now f_equal.
Qed.

(** X19. The language tag taken from a class name is sound: when [lang_of]
    gives a tag, the class name contains [language-] followed by the tag,
    the tag is not empty and is made of letters, digits and underscores
    only, and it is all of them: what follows the tag in the class name
    does not start with such a character. *)
Theorem lang_of_sound :
  forall cls tag,
    lang_of cls = Some tag ->
    exists pre post,
      default "" cls = pre +:+ "language-" +:+ tag +:+ post
      /\ tag <> ""
      /\ Tags.word tag = true
      /\ Tags.word_ends post = true.
Proof.
  intros cls tag H. exact (language_match_spec _ _ H).
Qed.

Lemma lang_of_sound_witness :
  exists pre post,
    "hljs language-c++" = pre +:+ "language-" +:+ "c" +:+ post
    /\ "c" <> "" /\ Tags.word "c" = true /\ Tags.word_ends post = true.
Proof.
  apply (lang_of_sound (Some "hljs language-c++") "c"). reflexivity.
Defined.

Lemma language_here_app w rest :
  w <> "" -> Tags.word w = true -> Tags.word_ends rest = true ->
  language_here ("language-" +:+ w +:+ rest) = Some w.
Proof.
  intros Hne Hw Hrest. unfold language_here.
  rewrite strip_prefix_app, (take_word_app _ _ Hw Hrest).
  destruct w; [contradiction|reflexivity].
Qed.

Ltac next_char p H :=
  destruct p as [|? p];
  [ reflexivity
  | cbn [list_ascii_of_string forallb] in H;
    apply andb_true_iff in H as [? H];
    change (String ?c p +:+ ?t) with (String c (p +:+ t));
    cbn [strip_prefix];
    match goal with
    | |- context [Ascii.eqb ?a ?b] =>
        destruct (Ascii.eqb a b) eqn:?; [|reflexivity]
    end ].

(** No match of [language-] starts inside a text without hyphen that is
    followed by [language-]: it would need a second letter [l] in
    [language-], or a hyphen in the text. *)
Lemma no_match_before c pre tail :
  Tags.no_hyphen (String c pre) = true ->
  strip_prefix "language-" (String c pre +:+ "language-" +:+ tail) = None.
Proof.
  intros H. unfold Tags.no_hyphen in H.
  cbn [list_ascii_of_string forallb] in H. apply andb_true_iff in H as [H1 H].
  change (String c pre +:+ "language-" +:+ tail)
    with (String c (pre +:+ "language-" +:+ tail)).
  cbn [strip_prefix].
  destruct (Ascii.eqb "l" c) eqn:E1; [|reflexivity].
  do 7 next_char pre H.
  destruct pre as [|c9 pre]; [reflexivity|].
  cbn [list_ascii_of_string forallb] in H. apply andb_true_iff in H as [H9 H].
  change (String c9 pre +:+ ?t) with (String c9 (pre +:+ t)).
  cbn [strip_prefix].
  destruct (Ascii.eqb "-" c9); [discriminate H9|reflexivity].
Qed.

Lemma language_match_skips pre : forall tail,
  Tags.no_hyphen pre = true ->
  language_match (pre +:+ "language-" +:+ tail) =
  language_match ("language-" +:+ tail).
Proof.
  induction pre as [|c pre IH]; intros tail H; [reflexivity|].
  assert (Hpre : Tags.no_hyphen pre = true).
  { unfold Tags.no_hyphen in *. cbn [list_ascii_of_string forallb] in H.
    now apply andb_true_iff in H as [_ H]. }
  rewrite <- (IH tail Hpre).
  change (String c pre +:+ "language-" +:+ tail)
    with (String c (pre +:+ "language-" +:+ tail)).
  cbn [language_match]. unfold language_here at 1.
  change (String c (pre +:+ "language-" +:+ tail))
    with (String c pre +:+ "language-" +:+ tail) at 1.
  now rewrite (no_match_before c pre tail H).
Qed.

(** X20. The language tag comes back from a class name built around it: for
    a non-empty tag of letters, digits and underscores, a class name made
    of any text without hyphen (other class names and spaces, say),
    [language-], the tag, and anything that does not go on with a letter,
    a digit or an underscore, gives that tag. *)
Theorem lang_of_round_trip :
  forall pre tag post,
    tag <> "" ->
    Tags.word tag = true ->
    Tags.word_ends post = true ->
    Tags.no_hyphen pre = true ->
    lang_of (Some (pre +:+ "language-" +:+ tag +:+ post)) = Some tag.
Proof.
  intros pre tag post Hne Hw Hpost Hpre.
  change (language_match (pre +:+ "language-" +:+ tag +:+ post) = Some tag).
  rewrite (language_match_skips pre (tag +:+ post) Hpre).
  pose proof (language_here_app tag post Hne Hw Hpost) as Hhere.
  change ("language-" +:+ tag +:+ post)
    with (String "l" ("anguage-" +:+ tag +:+ post)) in *.
  cbn [language_match]. now rewrite Hhere.
Qed.

Lemma lang_of_round_trip_witness :
  lang_of (Some "hljs lang language-objective_c extra") = Some "objective_c".
Proof.
  apply (lang_of_round_trip "hljs lang " "objective_c" " extra");
    [discriminate|reflexivity|reflexivity|reflexivity].
Defined.

(** *** From the code block to the editor *)

Lemma displayFilename_not_empty fname lang : displayFilename fname lang <> "".
Proof.
  unfold displayFilename.
  destruct fname as [[|c name]|]; cbn [truthy]; discriminate.
Qed.

(** X21. What a code block becomes. An inline one is rendered with its
    children as they are, the flattener not being run. A block one throws
    what the flattener throws on its children; when the flattener gives a
    text, the editor is opened on that text, read-only, labelled with the
    language tag of the class name or [plaintext] without one, under the
    display name, which is never empty (so the [untitled] default of the
    editor is not used), 200 pixels high, its dropdown closed. *)
Theorem block_code_opens_an_editor :
  forall cls children fname,
    code true cls children fname = Normal (InlineCode cls children)
    /\ (forall e, processContent children = Throws e ->
                  code false cls children fname = Throws e)
    /\ (forall text,
           processContent children = Normal text ->
           exists props,
             code false cls children fname = Normal (Editor props)
             /\ w_content (MonacoEditor props) = text
             /\ w_readOnly (MonacoEditor props) = true
             /\ currentLanguage (MonacoEditor props) =
                default "plaintext" (lang_of cls)
             /\ w_filename (MonacoEditor props) = displayFilename fname (lang_of cls)
             /\ w_filename (MonacoEditor props) <> ""
             /\ w_height (MonacoEditor props) = 200%Z
             /\ showLanguages (MonacoEditor props) = false
             /\ w_editor (MonacoEditor props) = None).
Proof.
  intros cls children fname. split; [reflexivity|]. split.
  - intros e He. unfold code. now rewrite He.
  - intros text Htext. unfold code. rewrite Htext. cbn [cbind].
    eexists. split; [reflexivity|].
    cbn [MonacoEditor w_content w_readOnly currentLanguage w_filename w_height
         showLanguages w_editor content readOnly language filename].
    repeat split. apply displayFilename_not_empty.
Qed.

Lemma block_code_opens_an_editor_witness :
  exists props,
    code false (Some "language-js") (VArr [VStr "let x"; VElem []]) (Some "")
    = Normal (Editor props)
    /\ w_content (MonacoEditor props) = "let x"
    /\ w_readOnly (MonacoEditor props) = true
    /\ currentLanguage (MonacoEditor props) = "js"
    /\ w_filename (MonacoEditor props) = "untitled.js"
    /\ w_filename (MonacoEditor props) <> ""
    /\ w_height (MonacoEditor props) = 200%Z
    /\ showLanguages (MonacoEditor props) = false
    /\ w_editor (MonacoEditor props) = None.
Proof.
  apply (proj2 (proj2 (block_code_opens_an_editor
                         (Some "language-js") (VArr [VStr "let x"; VElem []])
                         (Some "")))).
  reflexivity.
Defined.

(** *** The height of the editor *)

Lemma line_count_positive s : (1 <= line_count s)%Z.
Proof.
  induction s as [|c s IH]; cbn [line_count]; [lia|].
  destruct (Ascii.eqb c "010"%char); lia.
Qed.

Lemma line_count_app a b :
  line_count (a +:+ b) = (line_count a + line_count b - 1)%Z.
Proof.
  induction a as [|c a IH].
  - change ("" +:+ b) with b. cbn [line_count]. lia.
  - change (String c a +:+ b) with (String c (a +:+ b)).
    cbn [line_count]. rewrite IH. lia.
Qed.

(** X22. The height [updateHeight] sets is 20 pixels for each line of the
    content plus 50, kept between 200 and 600: it is 200 up to 7 lines,
    600 from 28 lines on, and neither in between. The editor's state apart
    from the height is untouched, a second run changes nothing, and the
    lines are counted as [split] does: one more than the line feeds, so
    that the lines of two texts put together are those of both less one. *)
Theorem updateHeight_bounds :
  forall w,
    let lines := line_count (w_content w) in
    let h := w_height (updateHeight w) in
    (200 <= h <= 600)%Z
    /\ (h = 200%Z <-> (lines <= 7)%Z)
    /\ (h = 600%Z <-> (28 <= lines)%Z)
    /\ ((7 < lines < 28)%Z -> h = (lines * 20 + 50)%Z)
    /\ updateHeight (updateHeight w) = updateHeight w
    /\ same_but_language
         {| w_content := w_content w; w_readOnly := w_readOnly w;
            w_filename := w_filename w; w_height := h;
            currentLanguage := currentLanguage w;
            showLanguages := showLanguages w; w_editor := w_editor w |}
         (updateHeight w)
    /\ currentLanguage (updateHeight w) = currentLanguage w
    /\ w_editor (updateHeight w) = w_editor w
    /\ (1 <= lines)%Z
    /\ forall a b, line_count (a +:+ b) = (line_count a + line_count b - 1)%Z.
Proof.
  intros w lines h. subst h. cbn [updateHeight w_height]. fold lines.
  pose proof (line_count_positive (w_content w)) as Hpos. fold lines in Hpos.
  repeat match goal with |- _ /\ _ => split end; try lia; try reflexivity.
  - repeat split.
  - exact line_count_app.
Qed.

Lemma updateHeight_bounds_witness :
  w_height (updateHeight
              (MonacoEditor {| content := "a
b
c
d
e
f
g
h
i"; language := None; readOnly := None; className := None; filename := None |}))
  = 230%Z.
Proof.
  apply (proj1 (proj2 (proj2 (proj2 (updateHeight_bounds
           (MonacoEditor {| content := "a
b
c
d
e
f
g
h
i"; language := None; readOnly := None; className := None; filename := None |})))))).
  vm_compute. split; reflexivity.
Defined.

(** *** The life of a widget *)

Lemma handleLanguageChange_twice lang lang' w :
  handleLanguageChange lang (handleLanguageChange lang' w) =
  handleLanguageChange lang w.
Proof.
  unfold handleLanguageChange. cbn.
  destruct (w_editor w) as [[model|]|]; reflexivity.
Qed.

(** X23. Of a run of selections in the dropdown only the last one counts:
    whatever was selected before, the widget is in the state the last
    selection alone would have put it in. *)
Theorem last_selection_wins :
  forall langs lang w,
    select_all (langs ++ [lang]) w = handleLanguageChange lang w.
Proof.
  induction langs as [|lang' langs IH]; intros lang w; [reflexivity|].
  change (select_all ((lang' :: langs) ++ [lang]) w)
    with (select_all (langs ++ [lang]) (handleLanguageChange lang' w)).
  rewrite IH. apply handleLanguageChange_twice.
Qed.

Lemma as_rendered_step props w e :
  as_rendered props w -> as_rendered props (widget_step w e).
Proof.
  intros (Hc & Hr & Hf & Hh).
  destruct e as [| |lang]; cbn; unfold as_rendered; cbn; repeat split;
    try assumption; try lia.
Qed.

Lemma as_rendered_steps props events : forall w,
  as_rendered props w -> as_rendered props (fold_left widget_step events w).
Proof.
  induction events as [|e events IH]; intros w Hw; [exact Hw|].
  cbn [fold_left]. apply IH. now apply as_rendered_step.
Qed.

Lemma in_step_step props w e :
  in_step props w -> in_step props (widget_step w e).
Proof.
  unfold in_step, shown_mode, shown_text.
  destruct e as [| |lang]; cbn; try (intros H; exact H).
  destruct (w_editor w) as [[model|]|]; cbn; intros [Hm Ht];
    try discriminate Hm. now split.
Qed.

Lemma in_step_steps props events : forall w,
  in_step props w -> in_step props (fold_left widget_step events w).
Proof.
  induction events as [|e events IH]; intros w Hw; [exact Hw|].
  cbn [fold_left]. apply IH. now apply in_step_step.
Qed.

Lemma last_cons_default {A} (x : A) l d : List.last (x :: l) d = List.last l x.
Proof.
  revert x d. induction l as [|y l IH]; intros x d; [reflexivity|].
  change (List.last (x :: y :: l) d) with (List.last (y :: l) d).
  now rewrite !IH.
Qed.

Lemma last_app_default {A} (l1 l2 : list A) d :
  List.last (l1 ++ l2) d = List.last l2 (List.last l1 d).
Proof.
  revert d. induction l1 as [|x l1 IH]; intros d; [reflexivity|].
  change ((x :: l1) ++ l2) with (x :: (l1 ++ l2)).
  now rewrite !last_cons_default, IH.
Qed.

Lemma currentLanguage_steps events : forall w,
  currentLanguage (fold_left widget_step events w) =
  List.last (picked events) (currentLanguage w).
Proof.
  induction events as [|e events IH]; intros w; [reflexivity|].
  cbn [fold_left]. rewrite IH.
  destruct e as [| |lang]; try reflexivity.
  change (picked (PickLanguage lang :: events)) with (lang :: picked events).
  now rewrite last_cons_default.
Qed.

(** X24. All its life a widget keeps what it was rendered with: the content,
    the read-only flag and the file name of its props, and a height between
    200 and 600 pixels; its label is the language picked last, or that of
    the props ([plaintext] without one) as long as none is picked. From the
    mounting of the editor on, whatever happened before and happens after
    (resizes, the dropdown opened and closed, languages picked), the
    highlighting mode of the editor's model is the label, and the text of
    the model is the content of the props. *)
Theorem widget_stays_in_step :
  forall props before after,
    let w := lived props before after in
    shown_mode w = Some (currentLanguage w)
    /\ shown_text w = Some (content props)
    /\ w_content w = content props
    /\ w_readOnly w = default true (readOnly props)
    /\ w_filename w = default "untitled" (filename props)
    /\ (200 <= w_height w <= 600)%Z
    /\ currentLanguage w =
       List.last (picked (before ++ after)) (default "plaintext" (language props)).
Proof.
  intros props before after w. subst w. unfold lived.
  set (w0 := fold_left widget_step before (MonacoEditor props)).
  assert (H0 : as_rendered props w0).
  { apply as_rendered_steps. unfold as_rendered. cbn. repeat split; lia. }
  assert (H1 : as_rendered props (handleEditorDidMount w0)).
  { destruct H0 as (Hc & Hr & Hf & Hh). unfold as_rendered. cbn.
    repeat split; try assumption; lia. }
  assert (H2 : in_step props (handleEditorDidMount w0)).
  { destruct H0 as (Hc & _). unfold in_step, shown_mode, shown_text. cbn.
    now rewrite Hc. }
  destruct (in_step_steps props after _ H2) as [Hm Ht].
  destruct (as_rendered_steps props after _ H1) as (Hc & Hr & Hf & Hh).
  repeat match goal with |- _ /\ _ => split end; try assumption; try lia.
  rewrite currentLanguage_steps.
  change (currentLanguage (handleEditorDidMount w0)) with (currentLanguage w0).
  unfold w0. rewrite currentLanguage_steps.
  unfold picked. now rewrite flat_map_app, last_app_default.
Qed.

End RenderMore.

(** ** The copy button *)

Module CopyMore.
Import CopyButton.

Lemma button_step_run content events : forall b,
  acknowledged_with_timer b ->
  let b' := fold_left (button_step content) events b in
  acknowledged_with_timer b'
  /\ clipboard b' = clipboard b ++ repeat content (clicks events)
  /\ pending b' <= pending b + clicks events.
Proof.
  induction events as [|e events IH]; intros b Hb.
  - cbn. repeat split; [exact Hb|now rewrite app_nil_r|lia].
  - cbn [fold_left]. destruct e.
    + destruct (IH (handleCopy content b)) as (Ha & Hc & Hp).
      { intros _. cbn. lia. }
      cbn zeta. split; [exact Ha|]. cbn [button_step]. split.
      * rewrite Hc. cbn [handleCopy clipboard].
        change (clicks (Click :: events)) with (S (clicks events)).
        cbn [repeat]. now rewrite <- List.app_assoc.
      * change (clicks (Click :: events)) with (S (clicks events)).
        cbn [handleCopy pending] in Hp. lia.
    + destruct (IH (timer_fires b)) as (Ha & Hc & Hp).
      { unfold acknowledged_with_timer, timer_fires.
        destruct (pending b) as [|n] eqn:Hn; [exact Hb|].
        cbn. discriminate. }
      cbn zeta. split; [exact Ha|]. cbn [button_step].
      change (clicks (TimerDue :: events)) with (clicks events).
      assert (Hsame : clipboard (timer_fires b) = clipboard b
                      /\ pending (timer_fires b) <= pending b).
      { unfold timer_fires.
        destruct (pending b) as [|n] eqn:Hn; cbn; (split; [reflexivity|lia]). }
      destruct Hsame as [Hsc Hsp]. rewrite Hsc in Hc. split; [exact Hc|lia].
Qed.

(** X25. The copy button through clicks and timers coming due, in any
    order. Each click puts the content on the clipboard once more, and
    nothing else does. Whenever the button shows the acknowledgement, a
    timer is set that will take it back; there are never more timers set
    than there were clicks. But the acknowledgement of a click can be
    taken back by the timer of an earlier one: after two clicks, the first
    timer to come due ends the acknowledgement with a timer still set. *)
Theorem copy_button_acknowledgement :
  forall content events,
    let b := fold_left (button_step content) events CopyCodeButton in
    clipboard b = repeat content (clicks events)
    /\ (isCopied b = true -> 0 < pending b)
    /\ (pending b = 0 -> isCopied b = false)
    /\ pending b <= clicks events
    /\ forall more,
        let b2 := fold_left (button_step content) (more ++ [Click; Click; TimerDue]) b in
        isCopied b2 = false /\ 0 < pending b2.
Proof.
  intros content events b.
  destruct (button_step_run content events CopyCodeButton) as (Ha & Hc & Hp);
    [intros H; discriminate H|].
  fold b in Ha, Hc, Hp. cbn [CopyCodeButton clipboard pending app] in Hc, Hp.
  split; [exact Hc|]. split; [exact Ha|]. split.
  - intros Hzero. destruct (isCopied b) eqn:E; [|reflexivity].
    pose proof (Ha E). lia.
  - split; [lia|]. intros more b2. subst b2. rewrite fold_left_app.
    set (b1 := fold_left (button_step content) more b).
    cbn [fold_left button_step]. unfold timer_fires.
    cbn [handleCopy pending isCopied clipboard]. split; [reflexivity|lia].
Qed.

End CopyMore.
